(** * LightKeyia: multi-instance Ollama client and adaptive batch scheduler

    A shallow embedding of the load-balancing client ([ollama_client.py]),
    of the batch loop of [ImageProcessor.process_directory]
    ([image_processor.py]) and of the JSON post-processing helpers
    ([utils.py]), together with the properties stated about them.

    Modelling conventions.
    - Python integers are [Z]; list positions and loop counters that the
      code only ever counts upwards from zero are [nat].
    - Python floats (durations, ratios, scores, pauses) are exact rationals
      [Q]; true division [/] is [Qdiv], and every division of the source is
      guarded against a zero divisor exactly as the source guards it.
    - Python strings are [string]; the whitespace and digit classes are the
      ASCII part of Python's.
    - A [threading.Semaphore] is its internal counter [_value]: the number
      of permits that are currently free.
    - Objects that the code mutates in place (the instances of a client) are
      addressed by their position in [OllamaClient.instances].
    - A call of [generate], [chat] or [process_directory] is followed on its
      own thread; what other threads and the network do is an input of the
      model (a [world], a [tick]). *)

From Stdlib Require Import ZArith QArith Qminmax Qround String Ascii Bool
  Lia Lqa PeanoNat List Permutation.
Import ListNotations.

Local Set Warnings "-register-all".

Local Open Scope Z_scope.

(** ** Rational comparisons used as Python's [>], [>=] on floats *)

Definition Qgt_bool (a b : Q) : bool := negb (Qle_bool a b).
Definition Qge_bool (a b : Q) : bool := Qle_bool b a.

(** ** [class OllamaInstance] *)

Module Instance.

Record OllamaInstance : Type := mkInstance {
  url : string;
  active_requests : Z;
  total_requests : Z;
  failed_requests : Z;
  total_processing_time : Q;
  last_response_time : Q;
  is_available : bool;
  models : list string;
  (** [self.semaphore._value]: permits of the semaphore still free *)
  semaphore_value : Z
}.

(** [OllamaInstance(url)] followed by the
    [instance.semaphore = threading.Semaphore(limit)] of the client. *)
Definition new_instance (u : string) (limit : Z) : OllamaInstance :=
  mkInstance u 0 0 0 0%Q 0%Q true [] limit.

Definition set_active_requests (v : Z) (i : OllamaInstance) : OllamaInstance :=
  mkInstance (url i) v (total_requests i) (failed_requests i)
    (total_processing_time i) (last_response_time i) (is_available i)
    (models i) (semaphore_value i).

Definition set_semaphore_value (v : Z) (i : OllamaInstance) : OllamaInstance :=
  mkInstance (url i) (active_requests i) (total_requests i) (failed_requests i)
    (total_processing_time i) (last_response_time i) (is_available i)
    (models i) v.

(** [update_stats(self, success, response_time)] *)
Definition update_stats (success : bool) (response_time : Q)
    (i : OllamaInstance) : OllamaInstance :=
  mkInstance (url i) (active_requests i)
    (total_requests i + 1)
    (if success then failed_requests i else failed_requests i + 1)
    (total_processing_time i + response_time)%Q
    response_time
    (is_available i) (models i) (semaphore_value i).

(** [get_average_response_time(self)] *)
Definition get_average_response_time (i : OllamaInstance) : Q :=
  if 0 <? total_requests i
  then (total_processing_time i / inject_Z (total_requests i))%Q
  else 0%Q.

(** [is_overloaded(self)] *)
Definition is_overloaded (i : OllamaInstance) : bool :=
  if Qge_bool (inject_Z (active_requests i))
              (inject_Z (semaphore_value i) * (8 # 10))%Q
  then true
  else if (5 <? total_requests i) && Qgt_bool (last_response_time i) 10%Q
  then true
  else if (5 <? total_requests i)
          && Qgt_bool (inject_Z (failed_requests i) / inject_Z (total_requests i))%Q
                      (3 # 10)%Q
  then true
  else false.

(** [get_health_score(self)] *)
Definition get_health_score (i : OllamaInstance) : Q :=
  if negb (is_available i) then 0%Q
  else
    let score := 100%Q in
    let score :=
      if 0 <? semaphore_value i
      then (score - inject_Z (active_requests i) / inject_Z (semaphore_value i) * 40)%Q
      else score in
    let score :=
      if 0 <? total_requests i
      then
        let avg_time := get_average_response_time i in
        if Qgt_bool avg_time 10%Q
        then (score - Qmin 30 (avg_time / 2))%Q
        else score
      else score in
    let score :=
      if 0 <? total_requests i
      then (score - inject_Z (failed_requests i) / inject_Z (total_requests i) * 30)%Q
      else score in
    Qmax 0 score.

(** The semaphore as the request loops use it: a successful
    [semaphore.acquire] followed by [active_requests += 1], and the
    [active_requests -= 1; semaphore.release()] pair. *)
Definition enter (i : OllamaInstance) : OllamaInstance :=
  set_active_requests (active_requests i + 1)
    (set_semaphore_value (semaphore_value i - 1) i).

Definition leave (i : OllamaInstance) : OllamaInstance :=
  set_semaphore_value (semaphore_value i + 1)
    (set_active_requests (active_requests i - 1) i).

(** *** The predicates as the specification words them

    Both are written against the configured concurrency limit [L], which
    the source never stores on the instance. *)

Definition spec_is_overloaded (L : Z) (i : OllamaInstance) : bool :=
  Qge_bool (inject_Z (active_requests i)) ((8 # 10) * inject_Z L)%Q
  || ((5 <? total_requests i) && Qgt_bool (last_response_time i) 10%Q)
  || ((5 <? total_requests i)
      && Qgt_bool (inject_Z (failed_requests i) / inject_Z (total_requests i))%Q
                  (3 # 10)%Q).

Definition spec_latency_penalty (i : OllamaInstance) : Q :=
  if 0 <? total_requests i
  then Qmin 30 (get_average_response_time i / 2)%Q
  else 0%Q.

Definition spec_reliability_penalty (i : OllamaInstance) : Q :=
  if 0 <? total_requests i
  then (30 * (inject_Z (failed_requests i) / inject_Z (total_requests i)))%Q
  else 0%Q.

Definition spec_health_score (L : Z) (i : OllamaInstance) : Q :=
  Qmax 0 (100 - 40 * (inject_Z (active_requests i) / inject_Z L)
              - spec_latency_penalty i - spec_reliability_penalty i)%Q.

(** The latency penalty the source applies: nothing up to an average of
    ten seconds, [min(30, avg/2)] above. *)
Definition latency_penalty (i : OllamaInstance) : Q :=
  if (0 <? total_requests i) && Qgt_bool (get_average_response_time i) 10%Q
  then Qmin 30 (get_average_response_time i / 2)%Q
  else 0%Q.

(** [get_success_rate(self)] *)
Definition get_success_rate (i : OllamaInstance) : Q :=
  if 0 <? total_requests i
  then (inject_Z (total_requests i - failed_requests i)
        / inject_Z (total_requests i) * 100)%Q
  else 100%Q.

(** The counters of an instance are sound: no negative count, and no more
    failures than requests. *)
Definition sound_counters (i : OllamaInstance) : Prop :=
  0 <= failed_requests i <= total_requests i.

(** Two snapshots of one instance that differ at most in the load, the
    accumulated latency and the number of failures. *)
Definition same_but_load (i j : OllamaInstance) : Prop :=
  is_available i = is_available j
  /\ semaphore_value i = semaphore_value j
  /\ total_requests i = total_requests j.

End Instance.

(** ** [class OllamaClient]: instance pool and selection *)

Module Client.
Import Instance.

Record OllamaClient : Type := mkClient {
  instances : list OllamaInstance;
  max_concurrent_requests : Z;
  load_balancing_strategy : string;
  current_instance_index : nat
}.

(** A borrowed reference to a pool member: its position in
    [self.instances] and the object found there. *)
Definition handle : Type := (nat * OllamaInstance)%type.

Definition enumerate (l : list OllamaInstance) : list handle :=
  combine (seq 0 (length l)) l.

(** [__init__(self, ollama_urls)] up to, and without, the first probe.
    The semaphores are built from the constructor's own limit of 3. *)
Definition new_client (ollama_urls : list string) : OllamaClient :=
  mkClient (map (fun u => new_instance u 3) ollama_urls) 3 "round_robin" 0.

(** Attribute assignments done by the owners of a client
    ([ImageProcessor.__init__], the settings dialog). *)
Definition set_strategy (s : string) (c : OllamaClient) : OllamaClient :=
  mkClient (instances c) (max_concurrent_requests c) s (current_instance_index c).

Definition set_max_concurrent_requests (m : Z) (c : OllamaClient) : OllamaClient :=
  mkClient (instances c) m (load_balancing_strategy c) (current_instance_index c).

Definition set_instances (l : list OllamaInstance) (c : OllamaClient) : OllamaClient :=
  mkClient l (max_concurrent_requests c) (load_balancing_strategy c)
    (current_instance_index c).

Definition advance_cursor (c : OllamaClient) : OllamaClient :=
  mkClient (instances c) (max_concurrent_requests c) (load_balancing_strategy c)
    (S (current_instance_index c)).

(** In-place mutation of the pool member at position [k]. *)
Fixpoint update_nth {A : Type} (k : nat) (f : A -> A) (l : list A) : list A :=
  match l, k with
  | [], _ => []
  | x :: r, O => f x :: r
  | x :: r, S k' => x :: update_nth k' f r
  end.

Definition update_instance (k : nat) (f : OllamaInstance -> OllamaInstance)
    (c : OllamaClient) : OllamaClient :=
  set_instances (update_nth k f (instances c)) c.

(** [get_available_instances(self)] *)
Definition get_available_instances (c : OllamaClient) : list handle :=
  filter (fun h => is_available (snd h)) (enumerate (instances c)).

(** The test [not instance.models or model_name in instance.models]. *)
Definition may_serve (model_name : string) (i : OllamaInstance) : bool :=
  match models i with
  | [] => true
  | _ => existsb (String.eqb model_name) (models i)
  end.

(** [get_instance_for_model(self, model_name)] *)
Definition get_instance_for_model (model_name : string) (c : OllamaClient)
    : list handle :=
  let available_instances := get_available_instances c in
  let instances_with_model :=
    filter (fun h => may_serve model_name (snd h)) available_instances in
  match instances_with_model with
  | [] => available_instances
  | _ => instances_with_model
  end.

(** The candidate selection as the specification words it: the available
    instances whose model list contains the model, or all available ones
    when there is none. *)
Definition advertises (model_name : string) (i : OllamaInstance) : bool :=
  existsb (String.eqb model_name) (models i).

Definition spec_instances_serving (model_name : string) (c : OllamaClient)
    : list handle :=
  match filter (fun h => advertises model_name (snd h)) (get_available_instances c) with
  | [] => get_available_instances c
  | serving => serving
  end.

(** Python's [min(xs, key=...)] and the head of a stable descending sort:
    the first element that no other element beats strictly. *)
Fixpoint first_best {A : Type} (better : A -> A -> bool) (best : A) (l : list A) : A :=
  match l with
  | [] => best
  | x :: r => first_best better (if better x best then x else best) r
  end.

Definition first_best_of {A : Type} (better : A -> A -> bool) (l : list A) : option A :=
  match l with
  | [] => None
  | x :: r => Some (first_best better x r)
  end.

(** [instances_to_use[self.current_instance_index % len(instances_to_use)]]
    followed by [self.current_instance_index += 1]. *)
Definition round_robin_step (instances_to_use : list handle) (c : OllamaClient)
    : option handle * OllamaClient :=
  (nth_error instances_to_use
     (current_instance_index c mod length instances_to_use)%nat,
   advance_cursor c).

(** The list [instances_to_use] of [_select_instance], with the flag that
    tells whether the two-second recovery pause is taken. *)
Definition healthy_or_all (available_instances : list handle) : list handle * bool :=
  let healthy_instances :=
    filter (fun h => negb (is_overloaded (snd h))) available_instances in
  match healthy_instances with
  | [] => (available_instances, true)
  | _ => (healthy_instances, false)
  end.

Definition candidates (model_name : string) (c : OllamaClient) : list handle :=
  if (model_name =? "")%string
  then get_available_instances c
  else get_instance_for_model model_name c.

Definition instances_to_use (model_name : string) (c : OllamaClient) : list handle :=
  fst (healthy_or_all (candidates model_name c)).

Record selection : Type := mkSelection {
  selected : option handle;
  client_after : OllamaClient;
  recovery_pause : bool
}.

(** [_select_instance(self, model_name)]; [draw] is the index that
    [random.choice] draws. *)
Definition _select_instance (model_name : string) (draw : nat) (c : OllamaClient)
    : selection :=
  let available_instances := candidates model_name c in
  match available_instances with
  | [] => mkSelection None c false
  | _ =>
    let '(to_use, paused) := healthy_or_all available_instances in
    let strategy := load_balancing_strategy c in
    if (strategy =? "round_robin")%string then
      let '(s, c') := round_robin_step to_use c in mkSelection s c' paused
    else if (strategy =? "least_busy")%string then
      mkSelection
        (first_best_of
           (fun x y => active_requests (snd x) <? active_requests (snd y)) to_use)
        c paused
    else if (strategy =? "fastest")%string then
      let instances_with_history :=
        filter (fun h => 0 <? total_requests (snd h)) to_use in
      match instances_with_history with
      | [] => let '(s, c') := round_robin_step to_use c in mkSelection s c' paused
      | _ =>
        mkSelection
          (first_best_of
             (fun x y => Qgt_bool (get_average_response_time (snd y))
                                  (get_average_response_time (snd x)))
             instances_with_history)
          c paused
      end
    else if (strategy =? "health_based")%string then
      mkSelection
        (first_best_of
           (fun x y => Qgt_bool (get_health_score (snd x)) (get_health_score (snd y)))
           to_use)
        c paused
    else
      mkSelection (nth_error to_use (draw mod length to_use)%nat) c paused
  end.

(** [n] consecutive calls of [_select_instance] with nothing in between. *)
Fixpoint select_many (n : nat) (model_name : string) (c : OllamaClient)
    : list (option handle) * OllamaClient :=
  match n with
  | O => ([], c)
  | S n' =>
    let s := _select_instance model_name 0 c in
    let '(rest, c') := select_many n' model_name (client_after s) in
    (selected s :: rest, c')
  end.

(** [reset_instance_stats(self, instance)] on one pool member, and on all
    of them when no instance is given. *)
Definition reset_stats (i : OllamaInstance) : OllamaInstance :=
  mkInstance (url i) (active_requests i) 0 0 0%Q (last_response_time i)
    (is_available i) (models i) (semaphore_value i).

Definition reset_instance_stats (target : option nat) (c : OllamaClient)
    : OllamaClient :=
  match target with
  | Some k => update_instance k reset_stats c
  | None => set_instances (map reset_stats (instances c)) c
  end.

(** [force_balanced_usage(self)]: the strategy is put back at the end, the
    cursor is not. *)
Definition force_balanced_usage (c : OllamaClient) : OllamaClient :=
  let c := reset_instance_stats None c in
  mkClient (instances c) (max_concurrent_requests c) (load_balancing_strategy c) 0.

(** *** The request loops [generate] and [chat]

    What the outside world does during one pass of the loop: the answer of
    [requests.post], the two readings of the clock (after the response, and
    in the exception handler), and the draw of [random.choice]. *)

Inductive http_result : Type :=
| Response (status_code : Z) (payload : option string)
    (** [payload] is what [response.json().get(...)] extracts; [None] when
        that extraction raises *)
| TransportError.

Record attempt : Type := mkAttempt {
  http : http_result;
  response_time : Q;
  handler_time : Q;
  draw : nat
}.

Inductive endpoint : Type := ApiGenerate | ApiChat.

Definition world : Type := endpoint -> nat -> attempt.

Record outcome : Type := mkOutcome {
  returned : option string;
  final : OllamaClient;
  posts : nat  (** number of [requests.post] calls made *)
}.

(** The body of [while retries < max_retries]; [remaining] is
    [max_retries - retries], and each pass that does not return adds one to
    [retries].  A semaphore that has a free permit is acquired at once; one
    that has none lets [acquire(timeout=30)] come back with [False]. *)
Fixpoint request_loop (api : endpoint) (w : world) (model : string)
    (remaining : nat) (retries : nat) (c : OllamaClient) (sent : nat) : outcome :=
  match remaining with
  | O => mkOutcome None c sent
  | S remaining' =>
    let a := w api retries in
    let s := _select_instance model (draw a) c in
    let c := client_after s in
    match selected s with
    | None => mkOutcome None c sent
    | Some (k, instance) =>
      if negb (0 <? semaphore_value instance) then
        request_loop api w model remaining' (S retries) c sent
      else
        let c := update_instance k enter c in
        match http a with
        | Response status_code payload =>
          if status_code =? 200 then
            let c := update_instance k (update_stats true (response_time a)) c in
            match payload with
            | Some text =>
              mkOutcome (Some text) (update_instance k leave c) (S sent)
            | None =>
              (* the extraction raises after the success was recorded:
                 [finally], then the [except Exception] handler *)
              let c := update_instance k leave c in
              let c := update_instance k (update_stats false (handler_time a)) c in
              let c := update_instance k leave c in
              request_loop api w model remaining' (S retries) c (S sent)
            end
          else
            let c := update_instance k (update_stats false (response_time a)) c in
            let c := update_instance k leave c in
            request_loop api w model remaining' (S retries) c (S sent)
        | TransportError =>
          (* [finally] of the inner [try] *)
          let c := update_instance k leave c in
          (* [except Exception]: the failure is recorded, then the handler
             decrements and releases once more *)
          let c := update_instance k (update_stats false (handler_time a)) c in
          let c := update_instance k leave c in
          request_loop api w model remaining' (S retries) c (S sent)
        end
    end
  end.

(** [generate(self, model, prompt, ..., max_retries, ...)] *)
Definition generate (w : world) (model : string) (max_retries : Z)
    (c : OllamaClient) : outcome :=
  request_loop ApiGenerate w model (Z.to_nat max_retries) 0 c 0.

(** [chat(self, model, messages, ..., max_retries, ...)] *)
Definition chat (w : world) (model : string) (max_retries : Z)
    (c : OllamaClient) : outcome :=
  request_loop ApiChat w model (Z.to_nat max_retries) 0 c 0.

(** A world in which every request meets a transport exception after one
    second, and one in which every request is answered with status 500. *)
Definition always_refused : world :=
  fun _ _ => mkAttempt TransportError 1%Q 1%Q 0.

Definition always_500 : world :=
  fun _ _ => mkAttempt (Response 500 None) 1%Q 1%Q 0.

(** A world in which every request is answered, after two seconds, with
    status 200 and an empty JSON object as text. *)
Definition always_ok : world :=
  fun _ _ => mkAttempt (Response 200 (Some "{}"%string)) 2%Q 2%Q 0.

(** What a request loop may not change on an instance. *)
Definition identity (i : OllamaInstance) : string * bool * list string :=
  (url i, is_available i, models i).

(** Every request of the world fails: no answer carries status 200. *)
Definition fails (a : attempt) : Prop :=
  match http a with
  | Response status_code _ => status_code <> 200
  | TransportError => True
  end.

(** Every request of the world is answered and its answer can be read: no
    transport exception, no unreadable body behind a status 200. *)
Definition answered (a : attempt) : Prop :=
  match http a with
  | Response status_code None => status_code <> 200
  | Response _ (Some _) => True
  | TransportError => False
  end.

(** The two counters of admission control: the active requests and the
    free permits. *)
Definition admission (i : OllamaInstance) : Z * Z :=
  (active_requests i, semaphore_value i).

(** The counters of an instance all of whose recorded calls failed. *)
Definition all_failed (i : OllamaInstance) : Prop :=
  failed_requests i = total_requests i.

End Client.

(** ** [ImageProcessor.process_directory]: the adaptive batch loop *)

Module Scheduler.

Definition path : Type := string.

(** What [future.result()] gives for one submitted image. *)
Inductive image_result : Type :=
| Skipped      (** the result is the marker SKIPPED *)
| Succeeded    (** any other truthy result *)
| NoResult     (** a falsy result: [None] or [False] *)
| Crashed.     (** [future.result()] raises *)

Definition is_failure (r : image_result) : bool :=
  match r with
  | NoResult | Crashed => true
  | Skipped | Succeeded => false
  end.

Record settings : Type := mkSettings {
  batch_size : Z;
  pause_between_batches : Q;
  force_processing : bool
}.

(** What one pass of the [while] loop observes of its surroundings: the two
    flags that other threads set, the CPU sample of [psutil.cpu_percent],
    the value of [self.paused] when a given path is about to be submitted,
    and what [process_image] comes back with. *)
Record tick : Type := mkTick {
  should_stop : bool;
  paused : bool;
  system_load : Q;
  paused_at : path -> bool;
  process_image : path -> image_result
}.

Record run_state : Type := mkRun {
  batch_index : nat;
  consecutive_failures : Z;
  adaptive_pause : Q;
  stats_check_counter : nat;
  processed_images : nat;
  skipped_images : nat;
  failed_images : nat;
  processing_images : list path
}.

(** [current_batch_size = max(1, self.batch_size - consecutive_failures)] *)
Definition current_batch_size (cfg : settings) (s : run_state) : Z :=
  Z.max 1 (batch_size cfg - consecutive_failures s).

(** [batch = image_files[batch_index:batch_index+current_batch_size]] *)
Definition current_batch (cfg : settings) (image_files : list path)
    (s : run_state) : list path :=
  firstn (Z.to_nat (current_batch_size cfg s)) (skipn (batch_index s) image_files).

(** The submission loop: a path is handed to the pool unless the run is
    paused at that moment or the path is already in flight.  Returns the
    paths submitted and the in-flight set afterwards. *)
Fixpoint submit (t : tick) (batch : list path) (in_flight : list path)
    : list path * list path :=
  match batch with
  | [] => ([], in_flight)
  | image_path :: rest =>
    if paused_at t image_path then submit t rest in_flight
    else if existsb (String.eqb image_path) in_flight then submit t rest in_flight
    else
      let '(futures, in_flight') := submit t rest (image_path :: in_flight) in
      (image_path :: futures, in_flight')
  end.

Definition discard (image_path : path) (in_flight : list path) : list path :=
  filter (fun p => negb (String.eqb image_path p)) in_flight.

(** The [as_completed] loop: counters, in-flight set and [batch_failures]. *)
Fixpoint collect (t : tick) (futures : list path) (s : run_state)
    (batch_failures : nat) : run_state * nat :=
  match futures with
  | [] => (s, batch_failures)
  | image_path :: rest =>
    let in_flight := discard image_path (processing_images s) in
    let bump sk pr fl :=
      mkRun (batch_index s) (consecutive_failures s) (adaptive_pause s)
        (stats_check_counter s) (processed_images s + pr) (skipped_images s + sk)
        (failed_images s + fl) in_flight in
    match process_image t image_path with
    | Skipped => collect t rest (bump 1 0 0)%nat batch_failures
    | Succeeded => collect t rest (bump 0 1 0)%nat batch_failures
    | NoResult => collect t rest (bump 0 0 1)%nat (S batch_failures)
    | Crashed => collect t rest (bump 0 0 1)%nat (S batch_failures)
    end
  end.

(** The adjustment after the batch has drained. *)
Definition adapt (cfg : settings) (batch_failures : nat) (s : run_state)
    : run_state :=
  if (0 <? batch_failures)%nat then
    mkRun (batch_index s) (consecutive_failures s + 1)
      (Qmin 60 (adaptive_pause s * (15 # 10)))
      (stats_check_counter s) (processed_images s) (skipped_images s)
      (failed_images s) (processing_images s)
  else
    mkRun (batch_index s) (Z.max 0 (consecutive_failures s - 1))
      (Qmax (pause_between_batches cfg) (adaptive_pause s * (8 # 10)))
      (stats_check_counter s) (processed_images s) (skipped_images s)
      (failed_images s) (processing_images s).

Definition take_batch (n : nat) (s : run_state) : run_state :=
  mkRun (batch_index s + n) (consecutive_failures s) (adaptive_pause s)
    (stats_check_counter s) (processed_images s) (skipped_images s)
    (failed_images s) (processing_images s).

Definition count_batch (s : run_state) : run_state :=
  mkRun (batch_index s) (consecutive_failures s) (adaptive_pause s)
    (S (stats_check_counter s)) (processed_images s) (skipped_images s)
    (failed_images s) (processing_images s).

Inductive pass_result : Type :=
| Break (s : run_state)
| Continue (s : run_state).

(** One pass of [while batch_index < len(image_files)].  The sleeps and the
    bookkeeping of the paused time change none of the variables below. *)
Definition pass (cfg : settings) (image_files : list path) (t : tick)
    (s : run_state) : pass_result :=
  if should_stop t then Break s
  else if paused t then Continue s
  else
    let batch := current_batch cfg image_files s in
    let s := take_batch (List.length batch) s in
    if Qgt_bool (system_load t) 90%Q then Continue s
    else
      let '(futures, in_flight) := submit t batch (processing_images s) in
      let s :=
        mkRun (batch_index s) (consecutive_failures s) (adaptive_pause s)
          (stats_check_counter s) (processed_images s) (skipped_images s)
          (failed_images s) in_flight in
      let '(s, batch_failures) := collect t futures s 0%nat in
      Continue (count_batch (adapt cfg batch_failures s)).

(** The loop over what the surroundings do, pass after pass.  [None]: the
    list of observations ends before the loop does. *)
Fixpoint batch_loop (cfg : settings) (image_files : list path)
    (ticks : list tick) (s : run_state) : option run_state :=
  if (batch_index s <? List.length image_files)%nat then
    match ticks with
    | [] => None
    | t :: later =>
      match pass cfg image_files t s with
      | Break s' => Some s'
      | Continue s' => batch_loop cfg image_files later s'
      end
    end
  else Some s.

Record report : Type := mkReport {
  total_images : nat;
  processed : nat;
  skipped : nat;
  failed : nat
}.

(** [process_directory], called while no run is in progress: [found] is
    what the directory walk collects, [in_cache] the cache collaborator. *)
Definition process_directory (cfg : settings) (found : list path)
    (in_cache : path -> bool) (ticks : list tick) : option report :=
  let image_files := nodup string_dec found in
  let total := List.length image_files in
  if (total =? 0)%nat then Some (mkReport 0 0 0 0)
  else
    let is_cached p := if force_processing cfg then false else in_cache p in
    let cached_images := filter is_cached image_files in
    let image_files :=
      match cached_images with
      | [] => image_files
      | _ => filter (fun p => negb (existsb (String.eqb p) cached_images)) image_files
      end in
    let start :=
      mkRun 0 0 (pause_between_batches cfg) 0 0 (List.length cached_images) 0 [] in
    match batch_loop cfg image_files ticks start with
    | None => None
    | Some s =>
      Some (mkReport total (processed_images s) (skipped_images s) (failed_images s))
    end.

(** The items a run has accounted for. *)
Definition accounted (r : report) : nat :=
  (processed r + skipped r + failed r)%nat.

(** Surroundings of a quiet run on a busy machine: nobody stops or pauses,
    every image succeeds, and the CPU is at 95 percent. *)
Definition busy_tick : tick :=
  mkTick false false 95%Q (fun _ => false) (fun _ => Succeeded).

(** The same surroundings on an idle machine: the CPU is at 10 percent. *)
Definition calm_tick : tick :=
  mkTick false false 10%Q (fun _ => false) (fun _ => Succeeded).

(** Surroundings in which every image fails. *)
Definition failing_tick : tick :=
  mkTick false false 10%Q (fun _ => false) (fun _ => NoResult).

Definition default_settings : settings := mkSettings 5 5%Q false.

(** A directory that holds a single image, which is not in the cache. *)
Definition one_image : list path := ["/photos/a.jpg"%string].

Definition nothing_cached : path -> bool := fun _ => false.

(** The items a loop state has accounted for. *)
Definition counted (s : run_state) : nat :=
  (processed_images s + skipped_images s + failed_images s)%nat.

(** Surroundings that leave a pass alone: no stop, no pause, neither at
    the top of the pass nor during submission, and a CPU sample of at most
    90 percent. *)
Definition quiet (t : tick) : Prop :=
  should_stop t = false /\ paused t = false
  /\ (system_load t <= 90)%Q
  /\ forall p, paused_at t p = false.

(** The adaptive variables are within their bounds: a failure count that
    is not negative, a pause between the configured floor and 60 seconds,
    an index inside the work list. *)
Definition tame (cfg : settings) (image_files : list path) (s : run_state)
    : Prop :=
  0 <= consecutive_failures s
  /\ (pause_between_batches cfg <= adaptive_pause s <= 60)%Q
  /\ (batch_index s <= List.length image_files)%nat.

(** The state in which the loop is entered. *)
Definition initial (cfg : settings) : run_state :=
  mkRun 0 0 (pause_between_batches cfg) 0 0 0 0 [].

End Scheduler.

(** ** [utils.py]: cleaning the model's answer and extracting keywords *)

Module Utils.

Local Open Scope string_scope.

(** Values of Python's [json] module. A dict is its list of items, in
    insertion order and with pairwise distinct keys. *)
Inductive json : Type :=
| JNull
| JBool (b : bool)
| JNumber (x : Q)
| JString (s : string)
| JList (items : list json)
| JDict (items : list (string * json)).

(** Exceptions, as far as the handlers of the source tell them apart. *)
Inductive exn : Type :=
| JSONDecodeError
| OtherException.

Definition raising (A : Type) : Type := (exn + A)%type.

Definition ret {A : Type} (x : A) : raising A := inr x.
Definition raise {A : Type} (e : exn) : raising A := inl e.

Definition bind {A B : Type} (m : raising A) (k : A -> raising B) : raising B :=
  match m with
  | inl e => inl e
  | inr x => k x
  end.

Notation "x <- m ;; k" := (bind m (fun x => k))
  (at level 61, m at next level, right associativity).

(** The substitutions that [clean_and_repair_json] asks of [re.sub], in the
    order of the source, and the two kinds of search it asks of
    [re.findall]: the bracketed value of a named field, and the quoted
    items inside such a value. *)
Inductive rewrite : Type :=
| CollapseWhitespace
| CommaBetweenObjects
| CommaBetweenStrings
| NoTrailingCommaInList
| NoTrailingCommaInObject
| CommaAfterStringValue
| CommaAfterNumberValue
| CommaAfterBooleanValue
| CommaAfterListValue
| EscapeInnerQuotes
| LowercaseTrue
| LowercaseFalse
| NoneToNull
| SplitArrayStrings.

Inductive query : Type :=
| FieldList (name : string)
| QuotedItems.

(** The standard library underneath: [json.loads], [re.sub], [re.findall].
    Each call may raise. *)
Class PyLib : Type := {
  json_loads : string -> raising json;
  re_sub : rewrite -> string -> raising string;
  re_findall : query -> string -> raising (list string)
}.

(** [str.find] of a character, counted from the left; [None] is -1. *)
Fixpoint find (ch : ascii) (s : string) : option nat :=
  match s with
  | EmptyString => None
  | String c r =>
    if Ascii.eqb c ch then Some 0%nat
    else match find ch r with
         | Some k => Some (S k)
         | None => None
         end
  end.

(** [str.rfind] of a character. *)
Fixpoint rfind (ch : ascii) (s : string) : option nat :=
  match s with
  | EmptyString => None
  | String c r =>
    match rfind ch r with
    | Some k => Some (S k)
    | None => if Ascii.eqb c ch then Some 0%nat else None
    end
  end.

(** The slice [json_str[start_idx:end_idx+1]], when the guard
    [start_idx != -1 and end_idx != -1 and end_idx > start_idx] lets it be
    taken. *)
Definition json_span (json_str : string) : option string :=
  match find "{" json_str, rfind "}" json_str with
  | Some start_idx, Some end_idx =>
    if (start_idx <? end_idx)%nat
    then Some (substring start_idx (end_idx + 1 - start_idx) json_str)
    else None
  | _, _ => None
  end.

Definition minimal_json : json :=
  JDict [("subjects", JList []); ("objects", JList []);
         ("scene", JList [JString "Description not available"])].

(** Python's [str.isspace] and [str.isdigit] on the ASCII range. *)
Definition is_space (c : ascii) : bool :=
  let n := nat_of_ascii c in
  ((9 <=? n) && (n <=? 13) || (28 <=? n) && (n <=? 32))%nat.

Definition is_digit (c : ascii) : bool :=
  let n := nat_of_ascii c in
  ((48 <=? n) && (n <=? 57))%nat.

Fixpoint lstrip (s : string) : string :=
  match s with
  | EmptyString => EmptyString
  | String c r => if is_space c then lstrip r else s
  end.

Fixpoint rstrip (s : string) : string :=
  match s with
  | EmptyString => EmptyString
  | String c r =>
    match rstrip r with
    | EmptyString => if is_space c then EmptyString else String c EmptyString
    | r' => String c r'
    end
  end.

(** [str.strip()] *)
Definition strip (s : string) : string := rstrip (lstrip s).

(** [s.isspace()] or [s] is empty: nothing but whitespace. *)
Fixpoint whitespace_only (s : string) : bool :=
  match s with
  | EmptyString => true
  | String c r => is_space c && whitespace_only r
  end.

(** The string is empty or its last character is not whitespace. *)
Fixpoint ends_solid (s : string) : bool :=
  match s with
  | EmptyString => true
  | String c EmptyString => negb (is_space c)
  | String _ r => ends_solid r
  end.

(** [sub in s] on strings *)
Fixpoint contains (sub s : string) : bool :=
  prefix sub s
  || match s with
     | EmptyString => false
     | String _ r => contains sub r
     end.

(** [key in data]: membership in a dict, a list or a string; a
    [TypeError] on anything else. *)
Definition py_in (key : string) (data : json) : raising bool :=
  match data with
  | JDict d => ret (existsb (fun kv => key =? fst kv) d)
  | JList l =>
    ret (existsb (fun v => match v with JString s => s =? key | _ => false end) l)
  | JString s => ret (contains key s)
  | JNull | JBool _ | JNumber _ => raise OtherException
  end.

(** [data[key]] with a string key: defined on dicts only. *)
Definition py_getitem (data : json) (key : string) : raising json :=
  match data with
  | JDict d =>
    match List.find (fun kv => key =? fst kv) d with
    | Some kv => ret (snd kv)
    | None => raise OtherException
    end
  | _ => raise OtherException
  end.

(** Truth value of an object, and whether [obj[:50]] is defined on it. *)
Definition truthy (v : json) : bool :=
  match v with
  | JNull => false
  | JBool b => b
  | JNumber x => negb (Qeq_bool x 0)
  | JString s => negb (s =? "")
  | JList l => match l with [] => false | _ => true end
  | JDict d => match d with [] => false | _ => true end
  end.

Definition sliceable (v : json) : bool :=
  match v with
  | JString _ | JList _ => true
  | _ => false
  end.

Definition categories : list string :=
  ["subjects"; "objects"; "lighting"; "colors"; "composition";
   "mood"; "technical"; "people"; "nudity"].

(** What one element of a category list contributes to [keywords]. *)
Definition keywords_of_item (item : json) : list string :=
  match item with
  | JString s => [s]
  | JDict d =>
    flat_map
      (fun kv => match snd kv with
                 | JString value => [fst kv ++ ":" ++ value]
                 | _ => []
                 end) d
  | _ => []
  end.

Definition category_keywords (data : json) (category : string)
    : raising (list string) :=
  present <- py_in category data ;;
  if (present : bool) then
    value <- py_getitem data category ;;
    match value with
    | JList items => ret (flat_map keywords_of_item items)
    | _ => ret []
    end
  else ret [].

Fixpoint gather (data : json) (cats : list string) : raising (list string) :=
  match cats with
  | [] => ret []
  | category :: rest =>
    here <- category_keywords data category ;;
    there <- gather data rest ;;
    ret (here ++ there)%list
  end.

Definition scene_of (data : json) : raising (option json) :=
  present <- py_in "scene" data ;;
  if (present : bool) then
    value <- py_getitem data "scene" ;;
    match value with
    | JList (first :: _) => ret (Some first)
    | JString s => ret (Some (JString s))
    | _ => ret None
    end
  else ret None.

(** The cleaning of one keyword: strip, drop it when empty, then take a
    leading 1 off when a non-digit follows. *)
Definition clean_keyword (kw : string) : option string :=
  match strip kw with
  | EmptyString => None
  | String c1 EmptyString => Some (String c1 EmptyString)
  | String c1 (String c2 r) =>
    if Ascii.eqb c1 "1" && negb (is_digit c2)
    then Some (String c2 r)
    else Some (String c1 (String c2 r))
  end.

Definition clean_keywords (keywords : list string) : list string :=
  flat_map (fun kw => match clean_keyword kw with
                      | Some kw' => [kw']
                      | None => []
                      end) keywords.

Section WithLibrary.
Context {lib : PyLib}.

(** The basic repairs, steps 1 to 8 of the source. *)
Definition repair (json_str : string) : raising string :=
  s <- re_sub CommaBetweenObjects json_str ;;
  s <- re_sub CommaBetweenStrings s ;;
  s <- re_sub NoTrailingCommaInList s ;;
  s <- re_sub NoTrailingCommaInObject s ;;
  s <- re_sub CommaAfterStringValue s ;;
  s <- re_sub CommaAfterNumberValue s ;;
  s <- re_sub CommaAfterBooleanValue s ;;
  s <- re_sub CommaAfterListValue s ;;
  s <- re_sub EscapeInnerQuotes s ;;
  s <- re_sub LowercaseTrue s ;;
  s <- re_sub LowercaseFalse s ;;
  s <- re_sub NoneToNull s ;;
  re_sub SplitArrayStrings s.

Definition strings (l : list string) : json := JList (map JString l).

(** The body of the innermost [try]: extraction of the three fields by
    regular expressions. *)
Definition manual_extraction (json_str : string) : raising json :=
  subjects <- re_findall (FieldList "subjects") json_str ;;
  objects <- re_findall (FieldList "objects") json_str ;;
  scene <- re_findall (FieldList "scene") json_str ;;
  subjects_items <-
    match subjects with
    | [] => ret []
    | first :: _ => re_findall QuotedItems first
    end ;;
  objects_items <-
    match objects with
    | [] => ret []
    | first :: _ => re_findall QuotedItems first
    end ;;
  scene_items <-
    match scene with
    | [] => ret ["Description not available"]
    | first :: _ =>
      items <- re_findall QuotedItems first ;;
      ret (match items with
           | [] => ["Description not available"]
           | _ => items
           end)
    end ;;
  ret (JDict [("subjects", strings subjects_items);
              ("objects", strings objects_items);
              ("scene", strings scene_items)]).

(** The body of the outer [try] of [clean_and_repair_json]. *)
Definition clean_body (json_str : string) : raising json :=
  match json_span json_str with
  | Some span =>
    json_str <- re_sub CollapseWhitespace span ;;
    match json_loads json_str with
    | inr value => ret value
    | inl OtherException => raise OtherException
    | inl JSONDecodeError =>
      json_str <- repair json_str ;;
      match json_loads json_str with
      | inr value => ret value
      | inl OtherException => raise OtherException
      | inl JSONDecodeError =>
        match manual_extraction json_str with
        | inr result => ret result
        | inl _ => ret minimal_json
        end
      end
    end
  | None => ret minimal_json
  end.

(** [clean_and_repair_json(json_str)] *)
Definition clean_and_repair_json (json_str : string) : raising json :=
  match clean_body json_str with
  | inr value => ret value
  | inl _ => ret minimal_json
  end.

(** One of the three recovery strategies yields something: the span
    parses, or it parses once repaired, or a field list is found in it. *)
Definition field_found (json_str : string) : bool :=
  existsb
    (fun name =>
       match re_findall (FieldList name) json_str with
       | inr (_ :: _) => true
       | _ => false
       end)
    ["subjects"; "objects"; "scene"].

Definition recoverable (json_str : string) : bool :=
  match json_span json_str with
  | None => false
  | Some span =>
    match re_sub CollapseWhitespace span with
    | inl _ => false
    | inr collapsed =>
      match json_loads collapsed with
      | inr _ => true
      | inl OtherException => false
      | inl JSONDecodeError =>
        match repair collapsed with
        | inl _ => false
        | inr repaired =>
          match json_loads repaired with
          | inr _ => true
          | inl OtherException => false
          | inl JSONDecodeError => field_found repaired
          end
        end
      end
    end
  end.

(** The body of the [try] of [extract_keywords_from_json].  The last
    logging call slices the scene description when it is truthy. *)
Definition extract_body (json_data : json)
    : raising (list string * option json) :=
  data <- match json_data with
          | JString raw => clean_and_repair_json raw
          | _ => ret json_data
          end ;;
  keywords <- gather data categories ;;
  scene_description <- scene_of data ;;
  let cleaned_keywords := clean_keywords keywords in
  _ <- match scene_description with
       | Some v => if truthy v && negb (sliceable v)
                   then raise OtherException else ret tt
       | None => ret tt
       end ;;
  ret (nodup string_dec cleaned_keywords, scene_description).

(** [extract_keywords_from_json(json_data)]; the order of the list that
    [list(set(...))] builds is not determined by the source, the model
    keeps the order of [nodup]. *)
Definition extract_keywords_from_json (json_data : json)
    : list string * option json :=
  match extract_body json_data with
  | inr result => result
  | inl _ => ([], None)
  end.

(** [OllamaClient.extract_json_from_response(self, response_text)]:
    [String.index n sub s] is [s.find(sub, n)], and Python's [None], which
    the method also returns when anything raises, is [JNull]. *)
Definition fenced (fence : string) (response_text : string) : option string :=
  match index 0 fence response_text with
  | None => None
  | Some at_fence =>
    let start := (at_fence + String.length fence)%nat in
    match index start "```" response_text with
    | None => None
    | Some stop => Some (strip (substring start (stop - start) response_text))
    end
  end.

Definition extract_json_from_response (response_text : string) : json :=
  let parse text :=
    match json_loads text with
    | inr value => value
    | inl _ => JNull
    end in
  let direct :=
    match json_span response_text with
    | Some span => parse span
    | None => parse response_text
    end in
  match index 0 "```json" response_text with
  | Some _ =>
    match fenced "```json" response_text with
    | Some json_str => parse json_str
    | None => direct
    end
  | None =>
    match index 0 "```" response_text with
    | Some _ =>
      match fenced "```" response_text with
      | Some json_str => parse json_str
      | None => direct
      end
    | None => direct
    end
  end.

End WithLibrary.

(** A keyword as a vision model words it, in an answer already parsed. *)
Definition one_person : json :=
  JDict [("subjects", JList [JString "1 person"])].

(** A library whose parser knows the empty object only. *)
Definition braces_lib : PyLib :=
  {| json_loads := fun s => if s =? "{}" then ret (JDict []) else raise JSONDecodeError;
     re_sub := fun _ s => ret s;
     re_findall := fun _ _ => ret [] |}.

(** A library that recovers nothing: no text parses, no pattern matches. *)
Definition barren_lib : PyLib :=
  {| json_loads := fun _ => raise JSONDecodeError;
     re_sub := fun _ s => ret s;
     re_findall := fun _ _ => ret [] |}.

End Utils.

(** ** [ImageProcessor]: the log and the progress snapshot *)

Module Progress.

(** The part of the processor that [add_log] works on. *)
Record log_state : Type := mkLog {
  logs : list string;
  last_log_message : option string;
  last_log_time : option Q
}.

(** [self.logs[-n:]] *)
Definition last_n {A : Type} (n : nat) (l : list A) : list A :=
  skipn (List.length l - n) l.

(** [add_log(self, message)]; [now] is the reading of the clock in seconds
    and [stamp] the rendering of a time of day. *)
Definition add_log (stamp : Q -> string) (now : Q) (message : string)
    (st : log_state) : log_state :=
  let repeated :=
    match last_log_message st, last_log_time st with
    | Some previous, Some before =>
      String.eqb previous message && Qgt_bool 2 (now - before)
    | _, _ => false
    end in
  if repeated then st
  else
    let log_entry := (stamp now ++ " - " ++ message)%string in
    let kept :=
      if (1000 <=? List.length (logs st))%nat
      then last_n 500 (logs st)
      else logs st in
    mkLog (kept ++ [log_entry]) (Some message) (Some now).

(** A sequence of [add_log] calls, each with the time at which it is made. *)
Fixpoint add_logs (stamp : Q -> string) (calls : list (Q * string))
    (st : log_state) : log_state :=
  match calls with
  | [] => st
  | (now, message) :: later => add_logs stamp later (add_log stamp now message st)
  end.

(** The fields of the processor that [get_progress] reads. *)
Record processor : Type := mkProcessor {
  is_processing : bool;
  should_stop : bool;
  paused : bool;
  start_time : option Q;
  pause_start_time : option Q;
  total_pause_time : Q;
  total_images : nat;
  processed_images : nat;
  skipped_images : nat;
  failed_images : nat;
  processing_times : list Q;
  log : log_state
}.

Inductive status : Type := Idle | Stopping | Paused | Processing.

(** The dictionary that [get_progress] returns.  Durations are given in
    seconds: [time_elapsed] is [None] for the text 00:00:00 of a processor
    never started, [time_remaining] is [None] for the dashes of an unknown
    estimate.  The entry isPaused, which holds the bound method itself and
    no state, is left out. *)
Record snapshot : Type := mkSnapshot {
  snap_status : status;
  progress : Q;
  total : nat;
  processed : nat;
  skipped : nat;
  failed : nat;
  snap_logs : list string;
  time_elapsed : option Q;
  time_remaining : option Z;
  avg_processing_time : Q;
  images_per_second : Q
}.

(** Python's [int] of a float: truncation towards zero. *)
Definition py_int (q : Q) : Z :=
  if Qle_bool 0 q then Qfloor q else Qceiling q.

Definition of_nat (n : nat) : Q := inject_Z (Z.of_nat n).

Definition sum_Q (l : list Q) : Q := fold_left Qplus l 0%Q.

(** The items done: processed, skipped and failed together. *)
Definition processed_total (p : processor) : nat :=
  (processed_images p + skipped_images p + failed_images p)%nat.

(** The local variable [elapsed_seconds]: bound only inside the branch of
    the remaining-time estimate. *)
Definition elapsed_seconds (now : nat -> Q) (p : processor) : option Q :=
  if is_processing p && (0 <? processed_total p)%nat
     && (processed_total p <? total_images p)%nat
  then
    match start_time p with
    | Some started =>
      let elapsed := (now 2%nat - started - total_pause_time p)%Q in
      match paused p, pause_start_time p with
      | true, Some since => Some (elapsed - (now 3%nat - since))%Q
      | _, _ => Some elapsed
      end
    | None => None
    end
  else None.

(** [get_progress(self)]; [now k] is the k-th reading of the clock.  [None]
    stands for the exception raised when [elapsed_seconds] is read without
    having been bound. *)
Definition get_progress (now : nat -> Q) (p : processor) : option snapshot :=
  let elapsed :=
    match start_time p with
    | Some started =>
      let e := (now 0%nat - started)%Q in
      let e := match paused p, pause_start_time p with
               | true, Some since => (e - (now 1%nat - since))%Q
               | _, _ => e
               end in
      Some (e - total_pause_time p)%Q
    | None => None
    end in
  let done := processed_total p in
  let progress_percent :=
    if (0 <? total_images p)%nat
    then Qmin 100 (of_nat done / of_nat (total_images p) * 100)
    else 0%Q in
  let bound := elapsed_seconds now p in
  let remaining :=
    match bound with
    | Some seconds =>
      if Qgt_bool seconds 0
      then Some (py_int (seconds / of_nat done
                         * of_nat (total_images p - done)))
      else None
    | None => None
    end in
  let current :=
    if negb (is_processing p) then Idle
    else if should_stop p then Stopping
    else if paused p then Paused
    else Processing in
  let shown :=
    if (200 <? List.length (logs (log p)))%nat
    then last_n 200 (logs (log p))
    else logs (log p) in
  let finish avg per_second :=
    Some (mkSnapshot current progress_percent (total_images p)
            (processed_images p) (skipped_images p) (failed_images p)
            shown elapsed remaining avg per_second) in
  match processing_times p with
  | [] => finish 0%Q 0%Q
  | _ =>
    let avg := (sum_Q (processing_times p)
                / of_nat (List.length (processing_times p)))%Q in
    match bound with
    | None => None
    | Some seconds =>
      if Qgt_bool seconds 0
      then finish avg (of_nat (processed_images p) / seconds)%Q
      else finish avg 0%Q
    end
  end.

(** The processor as a run leaves it: one image found and processed in
    three seconds, the run over. *)
Definition after_a_run : processor :=
  mkProcessor false false false (Some 0%Q) None 0%Q 1 1 0 0 [3%Q]
    (mkLog [] None None).

(** The processor in the middle of a run: one image of two done. *)
Definition in_mid_run : processor :=
  mkProcessor true false false (Some 0%Q) None 0%Q 2 1 0 0 [3%Q]
    (mkLog [] None None).

Definition steady_clock : nat -> Q := fun _ => 10%Q.

End Progress.

(** ** Concrete pools used in the scenarios below *)

Module Scenarios.
Import Instance Client.

Local Open Scope string_scope.

(** A pool member straight after construction: limit 3, nothing served. *)
Definition fresh : OllamaInstance := new_instance "http://localhost:11434" 3.

(** The same member while two calls are in flight on it. *)
Definition two_in_flight : OllamaInstance := enter (enter fresh).

(** The same member after one successful call that took four seconds. *)
Definition served_once : OllamaInstance := update_stats true 4%Q fresh.

(** A client over that single endpoint. *)
Definition solo : OllamaClient := new_client ["http://localhost:11434"].

(** Three reachable endpoints: the first lists the model, the second has
    an empty model list (its tag request failed), the third lists another
    model only. *)
Definition with_models (l : list string) (i : OllamaInstance) : OllamaInstance :=
  mkInstance (url i) (active_requests i) (total_requests i) (failed_requests i)
    (total_processing_time i) (last_response_time i) (is_available i) l
    (semaphore_value i).

Definition trio : OllamaClient :=
  mkClient
    [with_models ["llava"] (new_instance "http://a:11434" 3);
     new_instance "http://b:11434" 3;
     with_models ["mistral"] (new_instance "http://c:11434" 3)]
    3 "round_robin" 0.

(** The first and the second member of that pool, as handles. *)
Definition trio_first : handle :=
  (0%nat, with_models ["llava"] (new_instance "http://a:11434" 3)).

Definition trio_second : handle := (1%nat, new_instance "http://b:11434" 3).

(** A pool whose only endpoint lists another model. *)
Definition lone_mistral : OllamaClient :=
  mkClient [with_models ["mistral"] (new_instance "http://c:11434" 3)]
    3 "round_robin" 0.

End Scenarios.

(** * Properties *)

Import Instance Client.

(** ** Rational comparisons *)

Lemma Qgt_bool_iff (a b : Q) : Qgt_bool a b = true <-> (b < a)%Q.
Proof.
  unfold Qgt_bool. rewrite negb_true_iff. split; intro H.
  - apply Qnot_le_lt. intro Hle. apply Qle_bool_iff in Hle. congruence.
  - destruct (Qle_bool a b) eqn:E; [|reflexivity].
    apply Qle_bool_iff in E. exfalso. exact (Qlt_not_le _ _ H E).
Qed.

Lemma Qgt_bool_false_iff (a b : Q) : Qgt_bool a b = false <-> (a <= b)%Q.
Proof.
  unfold Qgt_bool. rewrite negb_false_iff. apply Qle_bool_iff.
Qed.

(** ** Overload predicate and health score *)

(** C3. With a limit of 3 and two calls in flight the semaphore holds one
    free permit, and [is_overloaded] compares the two active requests with
    0.8 times that one permit: it answers true, where the predicate over
    the configured limit (2 >= 2.4, no history) answers false. *)
Theorem is_overloaded_measures_free_permits :
  semaphore_value Scenarios.two_in_flight = 1
  /\ active_requests Scenarios.two_in_flight = 2
  /\ is_overloaded Scenarios.two_in_flight = true
  /\ spec_is_overloaded 3 Scenarios.two_in_flight = false.
Proof. repeat split; vm_compute; reflexivity. Qed.

(** C4, as stated, fails: after one successful call of four seconds on an
    idle instance the source takes no latency penalty (score 100), the
    stated formula takes min(30, 4/2) = 2 (score 98). *)
Lemma health_score_no_penalty_below_ten_seconds :
  is_available Scenarios.served_once = true
  /\ get_health_score Scenarios.served_once == 100
  /\ spec_health_score 3 Scenarios.served_once == 98
  /\ ~ get_health_score Scenarios.served_once
       == spec_health_score 3 Scenarios.served_once.
Proof.
  repeat split; try (vm_compute; reflexivity).
  intro H. vm_compute in H. discriminate H.
Qed.

(** C4, amended. For an available instance whose semaphore holds its full
    limit [L > 0], the score is
    max(0, 100 - 40 (active/L) - p_lat - p_rel), where p_rel is
    30 (failed/total) and p_lat is min(30, avg/2) when there is a history
    whose average latency exceeds ten seconds; p_lat is 0 for averages up
    to ten seconds, and both penalties are 0 without history. *)
Theorem health_score_formula (L : Z) (i : OllamaInstance) :
  is_available i = true ->
  semaphore_value i = L ->
  0 < L ->
  get_health_score i
    == Qmax 0 (100 - 40 * (inject_Z (active_requests i) / inject_Z L)
                   - latency_penalty i - spec_reliability_penalty i)
  /\ (total_requests i <= 0 ->
      latency_penalty i = 0%Q /\ spec_reliability_penalty i = 0%Q)
  /\ (0 < total_requests i ->
      (get_average_response_time i <= 10)%Q -> latency_penalty i = 0%Q)
  /\ (0 < total_requests i ->
      (10 < get_average_response_time i)%Q ->
      latency_penalty i = Qmin 30 (get_average_response_time i / 2)).
Proof.
  intros Hav Hsem HL. split; [|split; [|split]].
  - unfold get_health_score, latency_penalty, spec_reliability_penalty.
    rewrite Hav, Hsem. cbn [negb].
    apply Z.ltb_lt in HL. rewrite HL.
    destruct (0 <? total_requests i); cbn [andb];
      [destruct (Qgt_bool (get_average_response_time i) 10)|];
      apply Q.max_compat; try reflexivity; unfold Qdiv; ring.
  - intro Ht. apply Z.ltb_ge in Ht.
    unfold latency_penalty, spec_reliability_penalty. rewrite Ht.
    split; reflexivity.
  - intros Ht Havg. unfold latency_penalty.
    apply Qgt_bool_false_iff in Havg. rewrite Havg, andb_false_r. reflexivity.
  - intros Ht Havg. unfold latency_penalty.
    apply Z.ltb_lt in Ht. apply Qgt_bool_iff in Havg. rewrite Ht, Havg.
    reflexivity.
Qed.

Lemma health_score_formula_witness :
  get_health_score Scenarios.served_once
    == Qmax 0 (100 - 40 * (inject_Z (active_requests Scenarios.served_once) / inject_Z 3)
                   - latency_penalty Scenarios.served_once
                   - spec_reliability_penalty Scenarios.served_once).
Proof.
  apply (health_score_formula 3 Scenarios.served_once);
    [reflexivity | reflexivity | lia].
Defined.

(** ** The request loops *)

(** A selection never touches the pool. *)
Lemma select_instance_instances (model : string) (d : nat) (c : OllamaClient) :
  instances (client_after (_select_instance model d c)) = instances c.
Proof.
  unfold _select_instance.
  destruct (candidates model c); [reflexivity|].
  destruct (healthy_or_all (h :: l)) as [to_use pause].
  repeat match goal with
         | |- context [if ?b then _ else _] => destruct b
         | |- context [match ?x with [] => _ | _ :: _ => _ end] => destruct x
         end; reflexivity.
Qed.

Lemma Forall_update_nth {A : Type} (P : A -> Prop) (f : A -> A) (k : nat)
    (l : list A) :
  (forall x, P x -> P (f x)) -> Forall P l -> Forall P (update_nth k f l).
Proof.
  intros Hf Hl. revert k.
  induction Hl as [|x r Hx Hr IH]; intros [|k]; cbn; constructor; auto.
Qed.

Lemma length_update_nth {A : Type} (f : A -> A) (k : nat) (l : list A) :
  List.length (update_nth k f l) = List.length l.
Proof.
  revert k. induction l as [|x r IH]; intros [|k]; cbn; auto.
Qed.

Lemma all_failed_enter i : all_failed i -> all_failed (enter i).
Proof. exact (fun H => H). Qed.

Lemma all_failed_leave i : all_failed i -> all_failed (leave i).
Proof. exact (fun H => H). Qed.

Lemma all_failed_update_stats t i :
  all_failed i -> all_failed (update_stats false t i).
Proof. unfold all_failed. cbn. intros ->. reflexivity. Qed.

Create HintDb pool.

#[local] Hint Resolve all_failed_enter all_failed_leave all_failed_update_stats
  : pool.

Lemma all_failed_update_instance k f c :
  (forall i, all_failed i -> all_failed (f i)) ->
  Forall all_failed (instances c) ->
  Forall all_failed (instances (update_instance k f c)).
Proof. intros Hf Hc. cbn. apply Forall_update_nth; assumption. Qed.

#[local] Hint Resolve all_failed_update_instance : pool.

Lemma request_loop_all_failures (api : endpoint) (w : world) (model : string)
    (remaining retries : nat) (c : OllamaClient) (sent : nat) :
  (forall n, fails (w api n)) ->
  Forall all_failed (instances c) ->
  let r := request_loop api w model remaining retries c sent in
  returned r = None
  /\ (posts r <= sent + remaining)%nat
  /\ Forall all_failed (instances (final r)).
Proof.
  intros Hw. revert retries c sent.
  induction remaining as [|remaining IH]; intros retries c sent Hc; cbn zeta.
  - cbn. repeat split; [lia | assumption].
  - cbn [request_loop].
    pose proof (select_instance_instances model (draw (w api retries)) c) as Hsel.
    destruct (_select_instance model (draw (w api retries)) c) as [sel c' pause].
    cbn [selected client_after] in *.
    assert (Hc' : Forall all_failed (instances c')) by (rewrite Hsel; exact Hc).
    destruct sel as [[k instance]|]; [|cbn; repeat split; [lia | assumption]].
    destruct (negb (0 <? semaphore_value instance)).
    { destruct (IH (S retries) c' sent Hc') as (H1 & H2 & H3).
      repeat split; [assumption | lia | assumption]. }
    specialize (Hw retries). unfold fails in Hw.
    destruct (http (w api retries)) as [status payload|].
    + destruct (Z.eqb_spec status 200) as [E|E]; [contradiction|].
      match goal with
      | |- context [request_loop _ _ _ _ _ ?c1 _] =>
        destruct (IH (S retries) c1 (S sent)) as (H1 & H2 & H3);
          [auto 10 with pool|]
      end.
      repeat split; [assumption | lia | assumption].
    + match goal with
      | |- context [request_loop _ _ _ _ _ ?c1 _] =>
        destruct (IH (S retries) c1 (S sent)) as (H1 & H2 & H3);
          [auto 10 with pool|]
      end.
      repeat split; [assumption | lia | assumption].
Qed.

(** C5. When no request of the world is answered with status 200, a call of
    [generate] returns [None], sends at most [max_retries] requests, and
    leaves [failed_requests = total_requests] on every instance on which
    that equation held before the call, as it does on zeroed counters. *)
Theorem generate_exhausts_retries (w : world) (model : string)
    (max_retries : Z) (c : OllamaClient) :
  (forall n, fails (w ApiGenerate n)) ->
  Forall (fun i => failed_requests i = total_requests i) (instances c) ->
  let r := generate w model max_retries c in
  returned r = None
  /\ (posts r <= Z.to_nat max_retries)%nat
  /\ Forall (fun i => failed_requests i = total_requests i) (instances (final r)).
Proof.
  intros Hw Hc. unfold generate.
  exact (request_loop_all_failures ApiGenerate w model (Z.to_nat max_retries)
           0 c 0 Hw Hc).
Qed.

Lemma generate_exhausts_retries_witness :
  let r := generate always_500 "gemma3:4b" 3 Scenarios.solo in
  returned r = None
  /\ (posts r <= 3)%nat
  /\ Forall (fun i => failed_requests i = total_requests i) (instances (final r)).
Proof.
  apply (generate_exhausts_retries always_500 "gemma3:4b" 3 Scenarios.solo).
  - intro n. cbn. lia.
  - repeat constructor.
Defined.

Lemma update_nth_compose {A : Type} (f g : A -> A) (k : nat) (l : list A) :
  update_nth k f (update_nth k g l) = update_nth k (fun x => f (g x)) l.
Proof.
  revert k. induction l as [|x r IH]; intros [|k]; cbn; f_equal; auto.
Qed.

Lemma map_update_nth {A B : Type} (p : A -> B) (f : A -> A) (k : nat)
    (l : list A) :
  (forall x, p (f x) = p x) -> map p (update_nth k f l) = map p l.
Proof.
  intro Hp. revert k.
  induction l as [|x r IH]; intros [|k]; cbn; f_equal; auto.
Qed.

(** On the paths that end without an exception (an answer of any status
    whose body can be read) both counters are left as found: one acquire,
    one release. *)
Lemma request_loop_balanced (api : endpoint) (w : world) (model : string)
    (remaining retries : nat) (c : OllamaClient) (sent : nat) :
  (forall n, answered (w api n)) ->
  map admission (instances (final (request_loop api w model remaining retries c sent)))
  = map admission (instances c).
Proof.
  intros Hw. revert retries c sent.
  induction remaining as [|remaining IH]; intros retries c sent;
    [reflexivity|].
  cbn [request_loop].
  pose proof (select_instance_instances model (draw (w api retries)) c) as Hsel.
  destruct (_select_instance model (draw (w api retries)) c) as [sel c' pause].
  cbn [selected client_after] in *. rewrite <- Hsel.
  destruct sel as [[k instance]|]; [|reflexivity].
  destruct (negb (0 <? semaphore_value instance)); [apply IH|].
  specialize (Hw retries). unfold answered in Hw.
  destruct (http (w api retries)) as [status [text|]|]; [| |contradiction].
  - destruct (status =? 200).
    + cbn [final update_instance set_instances instances].
      rewrite !update_nth_compose. apply map_update_nth.
      intro x. unfold admission. cbn. f_equal; lia.
    + rewrite IH. cbn [update_instance set_instances instances].
      rewrite !update_nth_compose. apply map_update_nth.
      intro x. unfold admission. cbn. f_equal; lia.
  - destruct (Z.eqb_spec status 200) as [E|E]; [contradiction|].
    rewrite IH. cbn [update_instance set_instances instances].
    rewrite !update_nth_compose. apply map_update_nth.
    intro x. unfold admission. cbn. f_equal; lia.
Qed.

(** C1. One call of [generate] (and likewise of [chat]) with a single
    attempt that meets a transport exception, on a fresh pool of one
    instance with limit 3: the inner [finally] and the exception handler
    both decrement and release, so the call ends with [active_requests] at
    -1 and with 4 free permits on a semaphore built for 3.  (The paths
    without an exception leave both counters balanced:
    [request_loop_balanced].) *)
Theorem transport_exception_releases_twice :
  let g := generate always_refused "gemma3:4b" 1 Scenarios.solo in
  let h := chat always_refused "gemma3:4b" 1 Scenarios.solo in
  map semaphore_value (instances Scenarios.solo) = [3]
  /\ map active_requests (instances Scenarios.solo) = [0]
  /\ returned g = None /\ posts g = 1%nat
  /\ map active_requests (instances (final g)) = [-1]
  /\ map semaphore_value (instances (final g)) = [4]
  /\ returned h = None /\ posts h = 1%nat
  /\ map active_requests (instances (final h)) = [-1]
  /\ map semaphore_value (instances (final h)) = [4].
Proof. vm_compute. repeat split; reflexivity. Qed.

(** ** Candidate selection *)

Lemma may_serve_iff (model_name : string) (i : OllamaInstance) :
  may_serve model_name i = true <-> models i = [] \/ In model_name (models i).
Proof.
  unfold may_serve. destruct (models i) as [|m ms] eqn:E.
  - split; auto.
  - rewrite existsb_exists. split.
    + intros (x & Hx & Heq). apply String.eqb_eq in Heq. subst x. right. exact Hx.
    + intros [H|H]; [discriminate H|].
      exists model_name. split; [exact H | apply String.eqb_refl].
Qed.

Lemma filter_nil_iff {A : Type} (f : A -> bool) (l : list A) :
  filter f l = [] <-> forall x, In x l -> f x = false.
Proof.
  induction l as [|a l IH]; cbn.
  - split; [intros _ x [] | reflexivity].
  - destruct (f a) eqn:E; split.
    + discriminate.
    + intro H. specialize (H a (or_introl eq_refl)). congruence.
    + intros H x [<-|Hx]; [exact E | apply IH; assumption].
    + intro H. apply IH. intros x Hx. apply H. right. exact Hx.
Qed.

(** C7, as stated, fails: of three reachable endpoints whose model lists
    are [llava], empty and [mistral], the candidates for llava are the
    first two, neither the advertising one alone nor the whole pool. *)
Lemma get_instance_for_model_keeps_unlisted :
  map fst (get_instance_for_model "llava" Scenarios.trio) = [0; 1]%nat
  /\ map fst (spec_instances_serving "llava" Scenarios.trio) = [0]%nat
  /\ map fst (get_available_instances Scenarios.trio) = [0; 1; 2]%nat
  /\ get_instance_for_model "llava" Scenarios.trio
     <> spec_instances_serving "llava" Scenarios.trio.
Proof.
  repeat split; try reflexivity.
  intro H. apply (f_equal (@List.length _)) in H. vm_compute in H. discriminate H.
Qed.

(** C7, amended. [get_instance_for_model] returns exactly the available
    instances whose model list is empty or contains the model, in pool
    order, when there is at least one such instance, and the full
    available set when there is none. *)
Theorem get_instance_for_model_spec (model_name : string) (c : OllamaClient) :
  let available := get_available_instances c in
  let fits (h : handle) := models (snd h) = [] \/ In model_name (models (snd h)) in
  ((exists h, In h available /\ fits h) ->
   get_instance_for_model model_name c
     = filter (fun h => may_serve model_name (snd h)) available
   /\ forall h, In h (get_instance_for_model model_name c)
                <-> In h available /\ fits h)
  /\ ((forall h, In h available -> ~ fits h) ->
      get_instance_for_model model_name c = available).
Proof.
  cbn zeta. split.
  - intros (h & Hin & Hfit).
    assert (E : get_instance_for_model model_name c
                = filter (fun h => may_serve model_name (snd h))
                    (get_available_instances c)).
    { unfold get_instance_for_model.
      destruct (filter (fun h => may_serve model_name (snd h))
                  (get_available_instances c)) eqn:F; [|reflexivity].
      exfalso. rewrite filter_nil_iff in F. specialize (F h Hin).
      apply may_serve_iff in Hfit. congruence. }
    split; [exact E|].
    intro x. rewrite E, filter_In, may_serve_iff. reflexivity.
  - intro Hnone. unfold get_instance_for_model.
    destruct (filter (fun h => may_serve model_name (snd h))
                (get_available_instances c)) as [|x r] eqn:F; [reflexivity|].
    exfalso. assert (Hx : In x (x :: r)) by (left; reflexivity).
    rewrite <- F in Hx. apply filter_In in Hx. destruct Hx as [Hx Hs].
    apply may_serve_iff in Hs. exact (Hnone x Hx Hs).
Qed.

Lemma get_instance_for_model_spec_witness :
  map fst (get_instance_for_model "llava" Scenarios.trio) = [0; 1]%nat
  /\ get_instance_for_model "codellama" Scenarios.lone_mistral
     = get_available_instances Scenarios.lone_mistral.
Proof.
  split.
  - destruct (get_instance_for_model_spec "llava" Scenarios.trio) as [Hsome _].
    destruct Hsome as [E _].
    + exists (1%nat, new_instance "http://b:11434" 3).
      split; [right; left; reflexivity | left; reflexivity].
    + rewrite E. reflexivity.
  - apply (get_instance_for_model_spec "codellama").
    intros h [<-|[]] [H|[H|[]]]; discriminate H.
Defined.

(** ** Round robin *)

Lemma mod_shift_injective (N k i j : nat) :
  (i < N)%nat -> (j < N)%nat ->
  ((k + i) mod N = (k + j) mod N)%nat -> i = j.
Proof.
  intros Hi Hj E.
  pose proof (Nat.div_mod_eq (k + i) N) as Di.
  pose proof (Nat.div_mod_eq (k + j) N) as Dj.
  rewrite E in Di.
  remember ((k + i) / N)%nat as qi. remember ((k + j) / N)%nat as qj.
  remember ((k + j) mod N)%nat as m.
  destruct (Nat.lt_trichotomy qi qj) as [H|[H|H]]; nia.
Qed.

Lemma rotation_Permutation (N k : nat) :
  Permutation (map (fun j => ((k + j) mod N)%nat) (seq 0 N)) (seq 0 N).
Proof.
  apply NoDup_Permutation_bis.
  - apply NoDup_map_NoDup_ForallPairs; [|apply seq_NoDup].
    intros i j Hi Hj E. apply in_seq in Hi, Hj.
    apply (mod_shift_injective N k); [lia | lia | exact E].
  - rewrite length_map. apply Nat.le_refl.
  - intros x Hx. apply in_map_iff in Hx. destruct Hx as (j & <- & Hj).
    apply in_seq in Hj. apply in_seq. split; [lia|].
    cbn. apply Nat.mod_upper_bound. lia.
Qed.

Lemma map_nth_error_seq {A : Type} (l : list A) :
  map (nth_error l) (seq 0 (List.length l)) = map Some l.
Proof.
  induction l as [|a l IH]; [reflexivity|].
  cbn [List.length seq map nth_error]. f_equal.
  rewrite <- seq_shift, map_map. exact IH.
Qed.

Lemma healthy_or_all_nonempty (l : list handle) :
  l <> [] -> fst (healthy_or_all l) <> [].
Proof.
  intro Hl. unfold healthy_or_all.
  destruct (filter (fun h => negb (is_overloaded (snd h))) l) eqn:F;
    cbn; [exact Hl | discriminate].
Qed.

(** A round-robin selection reads the candidate under the cursor and moves
    the cursor one step on. *)
Lemma select_round_robin (model_name : string) (d : nat) (c : OllamaClient) :
  load_balancing_strategy c = "round_robin"%string ->
  candidates model_name c <> [] ->
  let pool := instances_to_use model_name c in
  selected (_select_instance model_name d c)
    = nth_error pool (current_instance_index c mod List.length pool)%nat
  /\ client_after (_select_instance model_name d c) = advance_cursor c.
Proof.
  intros Hs Hc. unfold _select_instance, instances_to_use.
  destruct (candidates model_name c) as [|h l]; [contradiction|].
  destruct (healthy_or_all (h :: l)) as [to_use pause].
  rewrite Hs. cbn. split; reflexivity.
Qed.

Lemma select_many_round_robin (n : nat) (model_name : string) (c : OllamaClient) :
  load_balancing_strategy c = "round_robin"%string ->
  candidates model_name c <> [] ->
  let pool := instances_to_use model_name c in
  fst (select_many n model_name c)
    = map (fun j => nth_error pool
                      ((current_instance_index c + j) mod List.length pool)%nat)
        (seq 0 n)
  /\ current_instance_index (snd (select_many n model_name c))
     = (current_instance_index c + n)%nat.
Proof.
  revert c. induction n as [|n IH]; intros c Hs Hc; cbn zeta.
  - cbn. split; [reflexivity | lia].
  - cbn [select_many].
    destruct (select_round_robin model_name 0 c Hs Hc) as [Hsel Hafter].
    rewrite Hafter, Hsel.
    destruct (IH (advance_cursor c) Hs Hc) as [Hrest Hcur].
    destruct (select_many n model_name (advance_cursor c)) as [rest c'].
    cbn [fst snd] in *. split.
    + cbn [seq map]. rewrite Nat.add_0_r. f_equal.
      rewrite Hrest, <- seq_shift, map_map.
      apply map_ext. intro j. cbn [advance_cursor current_instance_index].
      change (instances_to_use model_name (advance_cursor c))
        with (instances_to_use model_name c).
      do 2 f_equal. lia.
    + rewrite Hcur. cbn. lia.
Qed.

(** A selection, under any strategy, leaves the cursor where it is or moves
    it one step on. *)
Lemma select_instance_cursor (model_name : string) (d : nat) (c : OllamaClient) :
  let c' := client_after (_select_instance model_name d c) in
  current_instance_index c' = current_instance_index c
  \/ current_instance_index c' = S (current_instance_index c).
Proof.
  unfold _select_instance.
  destruct (candidates model_name c); [left; reflexivity|].
  destruct (healthy_or_all (h :: l)) as [to_use pause].
  repeat match goal with
         | |- context [if ?b then _ else _] => destruct b
         | |- context [match ?x with [] => _ | _ :: _ => _ end] => destruct x
         end; cbn; auto.
Qed.

(** C8. Under round robin, as many consecutive selections as there are
    candidates to use return every candidate exactly once: the selections
    are a permutation of the candidate list, which is the list of all
    model-restricted available instances when none of them is overloaded.
    The cursor has advanced by that number afterwards; assigning another
    strategy leaves it unchanged, and no selection under any strategy moves
    it back. *)
Theorem round_robin_visits_each_once (model_name : string) (c : OllamaClient) :
  load_balancing_strategy c = "round_robin"%string ->
  let pool := instances_to_use model_name c in
  let N := List.length pool in
  let run := select_many N model_name c in
  Permutation (fst run) (map Some pool)
  /\ ((forall h, In h (candidates model_name c) -> is_overloaded (snd h) = false) ->
      pool = candidates model_name c)
  /\ current_instance_index (snd run) = (current_instance_index c + N)%nat
  /\ (forall s, current_instance_index (set_strategy s c) = current_instance_index c)
  /\ (forall s m d,
        (current_instance_index c
         <= current_instance_index
              (client_after (_select_instance m d (set_strategy s c))))%nat).
Proof.
  intros Hs pool N run.
  assert (Hpool : candidates model_name c = [] -> pool = []).
  { intro E. unfold pool, instances_to_use. rewrite E. reflexivity. }
  split; [|split; [|split; [|split]]].
  - destruct (candidates model_name c) as [|h l] eqn:Ec.
    + subst run N. rewrite (Hpool eq_refl). cbn. constructor.
    + assert (Hc : candidates model_name c <> []) by (rewrite Ec; discriminate).
      destruct (select_many_round_robin N model_name c Hs Hc) as [E _].
      subst run. rewrite E. fold pool. fold N.
      rewrite <- (map_nth_error_seq pool). fold N.
      rewrite <- (map_map (fun j => ((current_instance_index c + j) mod N)%nat)
                          (nth_error pool)).
      apply Permutation_map, rotation_Permutation.
  - intro Hh. unfold pool, instances_to_use, healthy_or_all.
    assert (F : filter (fun h => negb (is_overloaded (snd h)))
                  (candidates model_name c) = candidates model_name c).
    { apply forallb_filter_id. apply forallb_forall. intros h Hin.
      rewrite (Hh h Hin). reflexivity. }
    rewrite F. destruct (candidates model_name c); reflexivity.
  - destruct (candidates model_name c) as [|h l] eqn:Ec.
    + subst run N. rewrite (Hpool eq_refl). cbn. lia.
    + assert (Hc : candidates model_name c <> []) by (rewrite Ec; discriminate).
      exact (proj2 (select_many_round_robin N model_name c Hs Hc)).
  - reflexivity.
  - intros s m d.
    destruct (select_instance_cursor m d (set_strategy s c)) as [E|E];
      rewrite E; cbn; lia.
Qed.

Lemma round_robin_visits_each_once_witness :
  Permutation (fst (select_many 2 "llava" Scenarios.trio))
    (map Some (instances_to_use "llava" Scenarios.trio)).
Proof.
  apply (round_robin_visits_each_once "llava" Scenarios.trio). reflexivity.
Defined.

(** ** The adaptive batch loop *)

Import Scheduler.

Lemma collect_spec (t : tick) (futures : list path) (s : run_state) (n : nat) :
  let r := collect t futures s n in
  consecutive_failures (fst r) = consecutive_failures s
  /\ adaptive_pause (fst r) = adaptive_pause s
  /\ batch_index (fst r) = batch_index s
  /\ snd r
     = (n + List.length
              (filter (fun p => is_failure (process_image t p)) futures))%nat.
Proof.
  revert s n. induction futures as [|p rest IH]; intros s n; cbn zeta.
  - cbn. repeat split. lia.
  - cbn [collect filter].
    destruct (process_image t p); cbn [is_failure];
      match goal with
      | |- context [collect t rest ?s1 ?n1] =>
        destruct (IH s1 n1) as (H1 & H2 & H3 & H4)
      end;
      rewrite H1, H2, H3, H4; cbn; repeat split; lia.
Qed.

Lemma some_failure_iff (t : tick) (futures : list path) :
  (0 < List.length (filter (fun p => is_failure (process_image t p)) futures))%nat
  <-> exists p, In p futures /\ is_failure (process_image t p) = true.
Proof.
  split.
  - destruct (filter (fun p => is_failure (process_image t p)) futures)
      as [|p r] eqn:F; cbn; [lia|].
    intros _. exists p.
    apply (proj1 (filter_In (fun p => is_failure (process_image t p)) p futures)).
    rewrite F. left. reflexivity.
  - intros (p & Hin & Hp).
    assert (H : In p (filter (fun p => is_failure (process_image t p)) futures))
      by (apply filter_In; split; assumption).
    destruct (filter (fun p => is_failure (process_image t p)) futures);
      [destruct H | cbn; lia].
Qed.

(** C6. In a pass of the loop that is neither stopped nor paused, the batch
    is cut from the remaining work list with size
    max(1, batch_size - consecutive_failures), so it holds that many items
    or all that remain.  When the batch drains (the load check lets it
    through): if a submitted item failed, the failure count goes up by one
    and the pause becomes min(60, 1.5 pause), at most 60; otherwise the
    failure count becomes max(0, count - 1), not negative, and the pause
    becomes max(floor, 0.8 pause), not below the configured floor. *)
Theorem adaptive_batch_step (cfg : settings) (image_files : list path)
    (t : tick) (s : run_state) :
  should_stop t = false ->
  paused t = false ->
  let size := Z.max 1 (batch_size cfg - consecutive_failures s) in
  let batch := current_batch cfg image_files s in
  let futures := fst (submit t batch (processing_images s)) in
  current_batch_size cfg s = size
  /\ batch = firstn (Z.to_nat size) (skipn (batch_index s) image_files)
  /\ List.length batch
     = Nat.min (Z.to_nat size) (List.length image_files - batch_index s)
  /\ ((system_load t <= 90)%Q ->
      exists s',
        pass cfg image_files t s = Continue s'
        /\ batch_index s' = (batch_index s + List.length batch)%nat
        /\ ((exists p, In p futures /\ is_failure (process_image t p) = true) ->
            consecutive_failures s' = consecutive_failures s + 1
            /\ adaptive_pause s' = Qmin 60 (adaptive_pause s * (15 # 10))
            /\ (adaptive_pause s' <= 60)%Q)
        /\ ((forall p, In p futures -> is_failure (process_image t p) = false) ->
            consecutive_failures s' = Z.max 0 (consecutive_failures s - 1)
            /\ 0 <= consecutive_failures s'
            /\ adaptive_pause s'
               = Qmax (pause_between_batches cfg) (adaptive_pause s * (8 # 10))
            /\ (pause_between_batches cfg <= adaptive_pause s')%Q)).
Proof.
  intros Hstop Hpaused size batch futures.
  split; [reflexivity|]. split; [reflexivity|]. split.
  - unfold batch, current_batch. rewrite length_firstn, length_skipn. reflexivity.
  - intro Hload. apply Qgt_bool_false_iff in Hload.
    unfold pass. rewrite Hstop, Hpaused. fold batch.
    cbn [take_batch processing_images batch_index consecutive_failures
         adaptive_pause stats_check_counter processed_images skipped_images
         failed_images].
    rewrite Hload.
    subst futures. destruct (submit t batch (processing_images s)) as [futures fl].
    cbn [fst].
    match goal with
    | |- context [collect t futures ?s1 0%nat] =>
      pose proof (collect_spec t futures s1 0%nat) as Hc;
        destruct (collect t futures s1 0%nat) as [s2 failures]
    end.
    cbn [fst snd consecutive_failures adaptive_pause batch_index] in Hc.
    destruct Hc as (Hcf & Hap & Hbi & Hn). cbn [Nat.add] in Hn.
    eexists. split; [reflexivity|].
    pose proof (some_failure_iff t futures) as Hiff. rewrite <- Hn in Hiff.
    unfold adapt. split; [|split].
    + destruct (0 <? failures)%nat; cbn; exact Hbi.
    + intro Hex. apply Hiff in Hex. apply Nat.ltb_lt in Hex. rewrite Hex.
      cbn. rewrite Hcf, Hap. repeat split. apply Q.le_min_l.
    + intro Hall.
      assert (Hz : (0 <? failures)%nat = false).
      { apply Nat.ltb_ge. destruct failures; [lia|]. exfalso.
        destruct (proj1 Hiff ltac:(lia)) as (p & Hin & Hp).
        rewrite (Hall p Hin) in Hp. discriminate Hp. }
      rewrite Hz. cbn. rewrite Hcf, Hap. repeat split.
      * apply Z.le_max_l.
      * apply Q.le_max_l.
Qed.

Lemma adaptive_batch_step_witness :
  exists s',
    pass default_settings one_image failing_tick (initial default_settings)
      = Continue s'
    /\ consecutive_failures s' = 1
    /\ adaptive_pause s' = Qmin 60 (5 * (15 # 10))
    /\ (adaptive_pause s' <= 60)%Q.
Proof.
  destruct (adaptive_batch_step default_settings one_image failing_tick
              (initial default_settings) eq_refl eq_refl)
    as (_ & _ & _ & Hdrain).
  destruct Hdrain as (s' & Hpass & _ & Hfail & _).
  - vm_compute. discriminate.
  - exists s'. split; [exact Hpass|].
    apply Hfail. exists "/photos/a.jpg"%string.
    split; [left; reflexivity | reflexivity].
Defined.

(** C2. A run over one uncached image during which the CPU sample reads
    95 percent: the batch has been cut and the index advanced before the
    load check, so the pass that is skipped takes the image with it; the
    loop ends and the run reports 1 image found, none processed, skipped
    or failed.  The same run on an idle machine accounts for the image. *)
Theorem load_check_drops_the_batch :
  process_directory default_settings one_image nothing_cached [busy_tick]
    = Some (mkReport 1 0 0 0)
  /\ pass default_settings one_image busy_tick (initial default_settings)
     = Continue (take_batch 1 (initial default_settings))
  /\ process_directory default_settings one_image nothing_cached [calm_tick]
     = Some (mkReport 1 1 0 0).
Proof. repeat split; vm_compute; reflexivity. Qed.

(** ** Cleaning the answer and extracting keywords *)

Import Utils.

Lemma field_found_false (lib : PyLib) (json_str : string) :
  field_found json_str = false ->
  forall name,
    In name ["subjects"; "objects"; "scene"]%string ->
    (exists e, re_findall (FieldList name) json_str = inl e)
    \/ re_findall (FieldList name) json_str = inr [].
Proof.
  unfold field_found. intros H name Hin.
  assert (Hf := proj2 (Bool.not_true_iff_false _) H).
  destruct (re_findall (FieldList name) json_str) as [e|[|x l]] eqn:E.
  - left. exists e. reflexivity.
  - right. reflexivity.
  - exfalso. apply Hf. apply existsb_exists. exists name.
    split; [exact Hin | rewrite E; reflexivity].
Qed.

Lemma manual_extraction_nothing_found (lib : PyLib) (json_str : string) :
  field_found json_str = false ->
  match manual_extraction json_str with
  | inr result => result = minimal_json
  | inl _ => True
  end.
Proof.
  intro H.
  pose proof (field_found_false lib json_str H) as Hf.
  destruct (Hf "subjects"%string ltac:(cbn; auto)) as [[e1 H1]|H1];
  destruct (Hf "objects"%string ltac:(cbn; auto)) as [[e2 H2]|H2];
  destruct (Hf "scene"%string ltac:(cbn; auto)) as [[e3 H3]|H3];
  unfold manual_extraction; rewrite H1; cbn; try exact I;
  rewrite H2; cbn; try exact I;
  rewrite H3; cbn; try exact I.
  reflexivity.
Qed.

(** C9. [clean_and_repair_json] returns a value on every input string,
    whatever the library calls underneath do, including raising.  When the
    text holds no span from a first opening brace to a later last closing
    brace the value is the minimal placeholder; more generally it is the
    placeholder whenever none of the three recovery strategies yields
    anything (the span does not parse, does not parse once repaired, and
    shows no subjects, objects or scene list). *)
Theorem clean_and_repair_json_total (lib : PyLib) (json_str : string) :
  (exists value, clean_and_repair_json json_str = inr value)
  /\ (json_span json_str = None ->
      clean_and_repair_json json_str = inr minimal_json)
  /\ (recoverable json_str = false ->
      clean_and_repair_json json_str = inr minimal_json).
Proof.
  split; [|split].
  - unfold clean_and_repair_json.
    destruct (clean_body json_str) as [e|v]; eexists; reflexivity.
  - intro H. unfold clean_and_repair_json, clean_body. rewrite H. reflexivity.
  - unfold recoverable, clean_and_repair_json, clean_body.
    destruct (json_span json_str) as [span|]; [|reflexivity].
    destruct (re_sub CollapseWhitespace span) as [e|collapsed]; cbn;
      [reflexivity|].
    destruct (json_loads collapsed) as [[|]|v]; cbn;
      [|reflexivity|discriminate].
    destruct (repair collapsed) as [e|repaired]; cbn; [reflexivity|].
    destruct (json_loads repaired) as [[|]|v]; cbn;
      [|reflexivity|discriminate].
    intro H. pose proof (manual_extraction_nothing_found lib repaired H) as Hm.
    destruct (manual_extraction repaired) as [e|result]; cbn;
      [reflexivity | rewrite Hm; reflexivity].
Qed.

Lemma clean_and_repair_json_total_witness :
  @clean_and_repair_json barren_lib "no braces at all" = inr minimal_json
  /\ @clean_and_repair_json barren_lib "{subjects: cat" = inr minimal_json
  /\ @clean_and_repair_json barren_lib "{ garbled }" = inr minimal_json.
Proof.
  split; [|split].
  - apply (clean_and_repair_json_total barren_lib "no braces at all").
    reflexivity.
  - apply (clean_and_repair_json_total barren_lib "{subjects: cat").
    reflexivity.
  - apply (proj2 (proj2 (clean_and_repair_json_total barren_lib "{ garbled }"))).
    reflexivity.
Defined.

Lemma rstrip_ends_solid (s : string) : ends_solid (rstrip s) = true.
Proof.
  induction s as [|c r IH]; [reflexivity|].
  cbn [rstrip]. destruct (rstrip r) as [|c' r'] eqn:E.
  - destruct (is_space c) eqn:Ec; cbn; [reflexivity | rewrite Ec; reflexivity].
  - exact IH.
Qed.

Lemma ends_solid_not_blank (s : string) :
  ends_solid s = true -> s <> EmptyString -> whitespace_only s = false.
Proof.
  induction s as [|c r IH]; intros Hs Hne; [contradiction|].
  cbn [whitespace_only]. destruct r as [|c' r'].
  - cbn in Hs. apply negb_true_iff in Hs. rewrite Hs. reflexivity.
  - rewrite IH; [apply andb_false_r | exact Hs | discriminate].
Qed.

(** A cleaned keyword is neither empty nor blank. *)
Lemma clean_keyword_solid (kw cleaned : string) :
  clean_keyword kw = Some cleaned ->
  cleaned <> EmptyString /\ whitespace_only cleaned = false.
Proof.
  unfold clean_keyword, strip. intro H.
  pose proof (rstrip_ends_solid (lstrip kw)) as Hs.
  destruct (rstrip (lstrip kw)) as [|c1 [|c2 r]]; [discriminate H| |].
  - injection H as <-. split; [discriminate|].
    apply ends_solid_not_blank; [exact Hs | discriminate].
  - destruct (Ascii.eqb c1 "1" && negb (is_digit c2)); injection H as <-;
      (split; [discriminate|]);
      apply ends_solid_not_blank; try discriminate; exact Hs.
Qed.

(** No element of the keyword list is empty or blank. *)
Lemma extract_keywords_solid (lib : PyLib) (json_data : json) (kw : string) :
  In kw (fst (extract_keywords_from_json json_data)) ->
  kw <> EmptyString /\ whitespace_only kw = false.
Proof.
  unfold extract_keywords_from_json, extract_body.
  repeat match goal with
         | |- context [bind ?m _] => destruct m as [?|?]; cbn [bind]
         end; cbn [fst ret]; try (intros []).
  intro Hin. apply nodup_In in Hin. unfold clean_keywords in Hin.
  apply in_flat_map in Hin. destruct Hin as (raw & _ & Hraw).
  destruct (clean_keyword raw) as [k|] eqn:E; [|destruct Hraw].
  destruct Hraw as [<-|[]]. exact (clean_keyword_solid raw k E).
Qed.

(** The keyword list never repeats a keyword. *)
Lemma extract_keywords_NoDup (lib : PyLib) (json_data : json) :
  NoDup (fst (extract_keywords_from_json json_data)).
Proof.
  unfold extract_keywords_from_json, extract_body.
  repeat match goal with
         | |- context [bind ?m _] => destruct m as [?|?]; cbn [bind]
         end; cbn; try constructor.
  apply NoDup_nodup.
Qed.

(** C10. For the parsed answer whose subjects are the single keyword
    1 person, the keyword is stripped first and its leading 1 is taken
    off afterwards, which leaves a keyword that begins with a blank: the
    returned element is not a stripped string.  (The list is free of
    duplicates and of empty or blank elements: [extract_keywords_NoDup],
    [extract_keywords_solid].) *)
Theorem extract_keywords_leaves_leading_blank (lib : PyLib) :
  extract_keywords_from_json one_person = ([" person"%string], None)
  /\ strip " person" = "person"%string
  /\ strip " person" <> " person"%string.
Proof.
  split; [reflexivity|]. split; [reflexivity|].
  vm_compute. discriminate.
Qed.

(** * Further properties of the instance statistics *)

Lemma Qdiv_le_mono (a b c : Q) : (0 < c)%Q -> (a <= b)%Q -> (a / c <= b / c)%Q.
Proof.
  intros Hc Hab. unfold Qdiv. apply Qmult_le_compat_r; [exact Hab|].
  apply Qlt_le_weak, Qinv_lt_0_compat, Hc.
Qed.

Lemma Qdiv_nonneg (a c : Q) : (0 <= a)%Q -> (0 < c)%Q -> (0 <= a / c)%Q.
Proof.
  intros Ha Hc. unfold Qdiv. apply Qmult_le_0_compat; [exact Ha|].
  apply Qlt_le_weak, Qinv_lt_0_compat, Hc.
Qed.

Lemma inject_Z_pos (z : Z) : 0 < z -> (0 < inject_Z z)%Q.
Proof. intro H. change 0%Q with (inject_Z 0). rewrite <- Zlt_Qlt. exact H. Qed.

Lemma inject_Z_nonneg (z : Z) : 0 <= z -> (0 <= inject_Z z)%Q.
Proof. intro H. change 0%Q with (inject_Z 0). rewrite <- Zle_Qle. exact H. Qed.

(** [update_stats] keeps the counters sound, whatever the outcome. *)
Lemma update_stats_sound (success : bool) (t : Q) (i : OllamaInstance) :
  sound_counters i -> sound_counters (update_stats success t i).
Proof.
  unfold sound_counters. destruct success; cbn; lia.
Qed.

Lemma success_rate_range (i : OllamaInstance) :
  sound_counters i -> (0 <= get_success_rate i <= 100)%Q.
Proof.
  unfold sound_counters, get_success_rate. intros [Hf Ht].
  destruct (Z.ltb_spec 0 (total_requests i)) as [Hpos|Hnpos];
    [|split; discriminate].
  pose proof (inject_Z_pos _ Hpos) as Hq.
  assert (Hnum : (0 <= inject_Z (total_requests i - failed_requests i))%Q)
    by (apply inject_Z_nonneg; lia).
  assert (Hle : (inject_Z (total_requests i - failed_requests i)
                 <= inject_Z (total_requests i))%Q)
    by (rewrite <- Zle_Qle; lia).
  split.
  - apply Qmult_le_0_compat; [apply Qdiv_nonneg; assumption | discriminate].
  - apply (Qdiv_le_mono _ _ _ Hq) in Hle.
    assert (E : (inject_Z (total_requests i) / inject_Z (total_requests i) == 1)%Q)
      by (field; intro H0; rewrite H0 in Hq; discriminate Hq).
    rewrite E in Hle. lra.
Qed.

(** The success rate of sound counters is a percentage: between 0 and 100,
    exactly 100 while nothing has failed (also before the first request),
    and exactly 0 when every request failed. *)
Theorem success_rate_is_percentage (i : OllamaInstance) :
  sound_counters i ->
  (0 <= get_success_rate i <= 100)%Q
  /\ (failed_requests i = 0 -> get_success_rate i == 100)
  /\ (0 < total_requests i -> failed_requests i = total_requests i ->
      get_success_rate i == 0).
Proof.
  intro Hs. split; [exact (success_rate_range i Hs)|].
  unfold get_success_rate.
  destruct (Z.ltb_spec 0 (total_requests i)) as [Hpos|Hnpos].
  - pose proof (inject_Z_pos _ Hpos) as Hq. split.
    + intro H0. rewrite H0, Z.sub_0_r. field.
      intro H1. rewrite H1 in Hq. discriminate Hq.
    + intros _ Heq. rewrite Heq, Z.sub_diag. unfold Qdiv. ring.
  - split; [reflexivity | lia].
Qed.

Lemma success_rate_is_percentage_witness :
  (0 <= get_success_rate Scenarios.served_once <= 100)%Q.
Proof.
  refine (proj1 (success_rate_is_percentage Scenarios.served_once _)).
  unfold sound_counters. cbn. lia.
Defined.

(** The health score is never negative, it is 0 for an unavailable
    instance, and it does not exceed 100 as long as neither the active
    requests nor the failures are counted below zero. *)
Theorem health_score_bounds (i : OllamaInstance) :
  (0 <= get_health_score i)%Q
  /\ (is_available i = false -> get_health_score i = 0%Q)
  /\ (0 <= active_requests i -> 0 <= failed_requests i ->
      (get_health_score i <= 100)%Q).
Proof.
  split; [|split].
  - unfold get_health_score. destruct (negb (is_available i));
      [apply Qle_refl | apply Q.le_max_l].
  - intro H. unfold get_health_score. rewrite H. reflexivity.
  - intros Ha Hf. unfold get_health_score.
    destruct (negb (is_available i)); [discriminate|].
    apply Q.max_lub; [discriminate|].
    assert (Hload :
      (0 <= (if 0 <? semaphore_value i
             then inject_Z (active_requests i) / inject_Z (semaphore_value i) * 40
             else 0))%Q).
    { destruct (Z.ltb_spec 0 (semaphore_value i)) as [Hs|Hs]; [|apply Qle_refl].
      apply Qmult_le_0_compat; [|discriminate].
      apply Qdiv_nonneg; [apply inject_Z_nonneg | apply inject_Z_pos]; assumption. }
    destruct (0 <? semaphore_value i);
      destruct (Z.ltb_spec 0 (total_requests i)) as [Ht|Ht].
    all: try (assert (Hrel : (0 <= inject_Z (failed_requests i)
                                   / inject_Z (total_requests i) * 30)%Q)
                by (apply Qmult_le_0_compat; [|discriminate];
                    apply Qdiv_nonneg;
                    [apply inject_Z_nonneg | apply inject_Z_pos]; assumption)).
    all: try (destruct (Qgt_bool (get_average_response_time i) 10) eqn:Eavg;
              [apply Qgt_bool_iff in Eavg;
               assert (Hlat : (0 <= Qmin 30 (get_average_response_time i / 2))%Q)
                 by (apply Q.min_glb;
                     [discriminate | apply Qdiv_nonneg; [lra | reflexivity]])|]).
    all: lra.
Qed.

Lemma health_score_bounds_witness :
  (get_health_score Scenarios.two_in_flight <= 100)%Q.
Proof.
  apply (health_score_bounds Scenarios.two_in_flight); cbn; lia.
Defined.

(** Holding availability, free permits and the number of requests fixed,
    the health score does not go up when the active requests, the
    accumulated latency or the failures go up. *)
Theorem health_score_monotone (i j : OllamaInstance) :
  same_but_load i j ->
  active_requests i <= active_requests j ->
  (total_processing_time i <= total_processing_time j)%Q ->
  failed_requests i <= failed_requests j ->
  (get_health_score j <= get_health_score i)%Q.
Proof.
  intros (Hav & Hsem & Htot) Ha Ht Hf.
  unfold get_health_score, get_average_response_time.
  rewrite <- Hav, <- Hsem, <- Htot.
  destruct (negb (is_available i)); [apply Qle_refl|].
  apply Q.max_le_compat_l.
  assert (Hload : 0 < semaphore_value i ->
    (inject_Z (active_requests i) / inject_Z (semaphore_value i) * 40
     <= inject_Z (active_requests j) / inject_Z (semaphore_value i) * 40)%Q).
  { intro Hs. apply Qmult_le_compat_r; [|discriminate].
    apply Qdiv_le_mono; [apply inject_Z_pos, Hs | rewrite <- Zle_Qle; exact Ha]. }
  assert (Hrel : 0 < total_requests i ->
    (inject_Z (failed_requests i) / inject_Z (total_requests i) * 30
     <= inject_Z (failed_requests j) / inject_Z (total_requests i) * 30)%Q).
  { intro Hs. apply Qmult_le_compat_r; [|discriminate].
    apply Qdiv_le_mono; [apply inject_Z_pos, Hs | rewrite <- Zle_Qle; exact Hf]. }
  assert (Havg : 0 < total_requests i ->
    (total_processing_time i / inject_Z (total_requests i)
     <= total_processing_time j / inject_Z (total_requests i))%Q).
  { intro Hs. apply Qdiv_le_mono; [apply inject_Z_pos, Hs | exact Ht]. }
  destruct (Z.ltb_spec 0 (semaphore_value i)) as [Hs|Hs];
    [specialize (Hload Hs)|clear Hload];
    (destruct (Z.ltb_spec 0 (total_requests i)) as [Hn|Hn];
     [specialize (Hrel Hn); specialize (Havg Hn)|lra]).
  all: set (ai := (total_processing_time i / inject_Z (total_requests i))%Q) in *.
  all: set (aj := (total_processing_time j / inject_Z (total_requests i))%Q) in *.
  all: destruct (Qgt_bool ai 10) eqn:Ei; destruct (Qgt_bool aj 10) eqn:Ej.
  all: try apply Qgt_bool_iff in Ei; try apply Qgt_bool_false_iff in Ei.
  all: try apply Qgt_bool_iff in Ej; try apply Qgt_bool_false_iff in Ej.
  all: try (assert (Hmin : (Qmin 30 (ai / 2) <= Qmin 30 (aj / 2))%Q)
              by (apply Q.min_le_compat_l, Qdiv_le_mono; [reflexivity | lra])).
  all: try (assert (Hpos : (0 <= Qmin 30 (aj / 2))%Q)
              by (apply Q.min_glb;
                  [discriminate | apply Qdiv_nonneg; [lra | reflexivity]])).
  all: lra.
Qed.

Lemma health_score_monotone_witness :
  (get_health_score Scenarios.two_in_flight
   <= get_health_score (set_active_requests 1 Scenarios.two_in_flight))%Q.
Proof.
  apply (health_score_monotone
           (set_active_requests 1 Scenarios.two_in_flight) Scenarios.two_in_flight).
  - repeat split.
  - cbn. lia.
  - cbn. discriminate.
  - cbn. lia.
Defined.

(** An instance whose semaphore has no free permit is overloaded, however
    short its history; one with nothing in flight, a free permit and at
    most five requests on record is not. *)
Theorem overload_by_load_alone (i : OllamaInstance) :
  (semaphore_value i <= 0 -> 0 <= active_requests i -> is_overloaded i = true)
  /\ (active_requests i <= 0 -> 0 < semaphore_value i -> total_requests i <= 5 ->
      is_overloaded i = false).
Proof.
  unfold is_overloaded, Qge_bool. split.
  - intros Hs Ha.
    assert (H : Qle_bool (inject_Z (semaphore_value i) * (8 # 10))
                         (inject_Z (active_requests i)) = true).
    { apply Qle_bool_iff.
      assert (H1 : (inject_Z (semaphore_value i) <= 0)%Q)
        by (change 0%Q with (inject_Z 0); rewrite <- Zle_Qle; exact Hs).
      pose proof (inject_Z_nonneg _ Ha). lra. }
    rewrite H. reflexivity.
  - intros Ha Hs Ht.
    assert (H : Qle_bool (inject_Z (semaphore_value i) * (8 # 10))
                         (inject_Z (active_requests i)) = false).
    { apply not_true_is_false. intro H. apply Qle_bool_iff in H.
      pose proof (inject_Z_pos _ Hs).
      assert (H1 : (inject_Z (active_requests i) <= 0)%Q)
        by (change 0%Q with (inject_Z 0); rewrite <- Zle_Qle; exact Ha).
      lra. }
    rewrite H. apply Z.ltb_ge in Ht. rewrite Ht. reflexivity.
Qed.

Lemma overload_by_load_alone_witness :
  is_overloaded Scenarios.fresh = false
  /\ is_overloaded (enter (enter (enter Scenarios.fresh))) = true.
Proof.
  split.
  - apply (overload_by_load_alone Scenarios.fresh); cbn; lia.
  - apply (overload_by_load_alone (enter (enter (enter Scenarios.fresh))));
      cbn; lia.
Defined.

(** * Further properties of the pool and of the selection *)

Lemma nth_error_update_nth {A : Type} (f : A -> A) (k j : nat) (l : list A) :
  nth_error (update_nth k f l) j
  = if (j =? k)%nat then option_map f (nth_error l j) else nth_error l j.
Proof.
  revert k j. induction l as [|x r IH]; intros [|k] [|j]; cbn; try reflexivity.
  - destruct (j =? k)%nat; reflexivity.
  - apply IH.
Qed.

(** Resetting the statistics, of one instance or of all, zeroes the request,
    failure and latency totals of the instances it is aimed at and nothing
    else: addresses, availability, model lists, active requests, free
    permits and the last latency stay, and so do the other instances, the
    strategy and the cursor.  A reset instance is overloaded by its load
    alone and has a success rate of 100. *)
Theorem reset_instance_stats_effect (target : option nat) (c : OllamaClient) :
  let c' := reset_instance_stats target c in
  let kept (i : OllamaInstance) :=
    (url i, is_available i, models i, active_requests i, semaphore_value i,
     last_response_time i) in
  map kept (instances c') = map kept (instances c)
  /\ load_balancing_strategy c' = load_balancing_strategy c
  /\ current_instance_index c' = current_instance_index c
  /\ (forall k i', nth_error (instances c') k = Some i' ->
        target = None \/ target = Some k ->
        total_requests i' = 0 /\ failed_requests i' = 0
        /\ total_processing_time i' = 0%Q
        /\ get_success_rate i' = 100%Q
        /\ is_overloaded i'
           = Qge_bool (inject_Z (active_requests i'))
                      (inject_Z (semaphore_value i') * (8 # 10)))
  /\ (forall k j, target = Some k -> j <> k ->
        nth_error (instances c') j = nth_error (instances c) j).
Proof.
  cbn zeta. split; [|split; [|split; [|split]]].
  - destruct target as [k|]; cbn.
    + apply map_update_nth. reflexivity.
    + rewrite map_map. reflexivity.
  - destruct target; reflexivity.
  - destruct target; reflexivity.
  - intros k i' Hk Ht.
    assert (Hr : exists i, i' = reset_stats i).
    { destruct target as [k0|]; cbn in Hk.
      - destruct Ht as [Ht|Ht]; [discriminate Ht|]. injection Ht as ->.
        rewrite nth_error_update_nth, Nat.eqb_refl in Hk.
        destruct (nth_error (instances c) k) as [i|]; [|discriminate Hk].
        exists i. cbn in Hk. congruence.
      - rewrite nth_error_map in Hk.
        destruct (nth_error (instances c) k) as [i|]; [|discriminate Hk].
        exists i. cbn in Hk. congruence. }
    destruct Hr as [i ->]. repeat split.
    unfold is_overloaded. cbn.
    destruct (Qge_bool _ _); reflexivity.
  - intros k j -> Hj. cbn. rewrite nth_error_update_nth.
    destruct (Nat.eqb_spec j k); [contradiction | reflexivity].
Qed.

Lemma reset_instance_stats_effect_witness :
  get_success_rate (reset_stats (snd Scenarios.trio_second)) = 100%Q
  /\ is_overloaded (reset_stats (snd Scenarios.trio_second)) = false.
Proof.
  destruct (proj1 (proj2 (proj2 (proj2
              (reset_instance_stats_effect None Scenarios.trio)))) 1%nat
              (reset_stats (snd Scenarios.trio_second)) eq_refl
              (or_introl eq_refl))
    as (_ & _ & _ & Hrate & Hover).
  split; [exact Hrate | rewrite Hover; reflexivity].
Defined.

(** A handle of the enumeration points at the object it carries. *)
Lemma In_combine_seq {A : Type} (l : list A) (s k : nat) (x : A) :
  In (k, x) (combine (seq s (List.length l)) l) ->
  (s <= k)%nat /\ nth_error l (k - s) = Some x.
Proof.
  revert s. induction l as [|a l IH]; intros s H; cbn in H; [destruct H|].
  destruct H as [H|H].
  - injection H as <- <-. rewrite Nat.sub_diag. split; [lia | reflexivity].
  - apply IH in H. destruct H as [Hle Hn]. split; [lia|].
    replace (k - s)%nat with (S (k - S s)) by lia. exact Hn.
Qed.

Lemma available_handle (c : OllamaClient) (h : handle) :
  In h (get_available_instances c) ->
  nth_error (instances c) (fst h) = Some (snd h) /\ is_available (snd h) = true.
Proof.
  unfold get_available_instances, enumerate. intro H.
  apply filter_In in H. destruct H as [H Hav]. destruct h as [k i].
  apply In_combine_seq in H. destruct H as [_ H].
  rewrite Nat.sub_0_r in H. split; assumption.
Qed.

Lemma candidates_available (model_name : string) (c : OllamaClient) (h : handle) :
  In h (candidates model_name c) -> In h (get_available_instances c).
Proof.
  unfold candidates, get_instance_for_model. cbv zeta.
  destruct (model_name =? "")%string; [auto|].
  destruct (filter (fun h => may_serve model_name (snd h))
              (get_available_instances c)) eqn:F; [auto|].
  intro H. rewrite <- F in H. apply filter_In in H. tauto.
Qed.

Lemma instances_to_use_candidates (model_name : string) (c : OllamaClient)
    (h : handle) :
  In h (instances_to_use model_name c) -> In h (candidates model_name c).
Proof.
  unfold instances_to_use, healthy_or_all. cbv zeta.
  destruct (filter (fun h => negb (is_overloaded (snd h)))
              (candidates model_name c)) eqn:F; cbn [fst]; [auto|].
  intro H. rewrite <- F in H. apply filter_In in H. tauto.
Qed.

Lemma first_best_In {A : Type} (better : A -> A -> bool) (l : list A) (best : A) :
  In (first_best better best l) (best :: l).
Proof.
  revert best. induction l as [|x r IH]; intro best; cbn [first_best].
  - left. reflexivity.
  - destruct (IH (if better x best then x else best)) as [H|H].
    + destruct (better x best); [right; left | left]; exact H.
    + right. right. exact H.
Qed.

Lemma nth_error_mod_In {A : Type} (l : list A) (n : nat) :
  l <> [] -> exists x, nth_error l (n mod List.length l) = Some x /\ In x l.
Proof.
  intro Hl.
  assert (Hlt : (n mod List.length l < List.length l)%nat).
  { apply Nat.mod_upper_bound. destruct l; [contradiction | discriminate]. }
  destruct (nth_error l (n mod List.length l)) as [x|] eqn:E.
  - exists x. split; [reflexivity | exact (nth_error_In _ _ E)].
  - apply nth_error_None in E. lia.
Qed.

Lemma select_instance_pick (model_name : string) (d : nat) (c : OllamaClient) :
  candidates model_name c <> [] ->
  exists h, selected (_select_instance model_name d c) = Some h
            /\ In h (instances_to_use model_name c).
Proof.
  intro Hc. unfold _select_instance, instances_to_use.
  destruct (candidates model_name c) as [|h0 l0] eqn:Ec; [contradiction|].
  pose proof (healthy_or_all_nonempty (h0 :: l0) ltac:(discriminate)) as Hne.
  destruct (healthy_or_all (h0 :: l0)) as [to_use pause]. cbn [fst] in *.
  destruct (nth_error_mod_In to_use (current_instance_index c) Hne)
    as (x & Ex & Hx).
  destruct (nth_error_mod_In to_use d Hne) as (y & Ey & Hy).
  destruct (load_balancing_strategy c =? "round_robin")%string.
  { exists x. cbn. split; assumption. }
  destruct (load_balancing_strategy c =? "least_busy")%string.
  { destruct to_use as [|u us]; [contradiction|].
    eexists. split; [reflexivity | apply first_best_In]. }
  destruct (load_balancing_strategy c =? "fastest")%string.
  { destruct (filter (fun h => 0 <? total_requests (snd h)) to_use)
      as [|v vs] eqn:F.
    - exists x. cbn. split; assumption.
    - eexists. split; [reflexivity|].
      assert (Hv : In (first_best
                         (fun x y => Qgt_bool (get_average_response_time (snd y))
                                              (get_average_response_time (snd x)))
                         v vs) (v :: vs)) by apply first_best_In.
      rewrite <- F in Hv. apply filter_In in Hv. tauto. }
  destruct (load_balancing_strategy c =? "health_based")%string.
  { destruct to_use as [|u us]; [contradiction|].
    eexists. split; [reflexivity | apply first_best_In]. }
  exists y. cbn. split; assumption.
Qed.

Lemma selected_is_pool_member (model_name : string) (d : nat)
    (c : OllamaClient) (h : handle) :
  selected (_select_instance model_name d c) = Some h ->
  In h (instances_to_use model_name c)
  /\ In h (candidates model_name c)
  /\ is_available (snd h) = true
  /\ nth_error (instances c) (fst h) = Some (snd h).
Proof.
  intro Hs.
  assert (Hc : candidates model_name c <> []).
  { intro Ec. unfold _select_instance in Hs. rewrite Ec in Hs. discriminate Hs. }
  destruct (select_instance_pick model_name d c Hc) as (h' & Hs' & Hin).
  assert (h' = h) by congruence. subst h'.
  pose proof (instances_to_use_candidates _ _ _ Hin) as Hcand.
  pose proof (candidates_available _ _ _ Hcand) as Ha.
  apply available_handle in Ha. tauto.
Qed.

(** [_select_instance] answers [None] exactly when there is no candidate:
    no available instance, whatever the strategy.  What it selects
    otherwise is one of the instances to use, hence an available pool
    member that serves the model or is a fallback candidate. *)
Theorem select_instance_none_iff (model_name : string) (d : nat)
    (c : OllamaClient) :
  let s := _select_instance model_name d c in
  (selected s = None <-> candidates model_name c = [])
  /\ (forall h, selected s = Some h ->
        In h (instances_to_use model_name c)
        /\ In h (candidates model_name c)
        /\ is_available (snd h) = true
        /\ nth_error (instances c) (fst h) = Some (snd h)).
Proof.
  cbn zeta. split.
  - split.
    + intro Hnone. destruct (candidates model_name c) as [|h0 l0] eqn:Ec;
        [reflexivity|]. exfalso.
      destruct (select_instance_pick model_name d c) as (h & Hs & _);
        [rewrite Ec; discriminate | congruence].
    + intro Ec. unfold _select_instance. rewrite Ec. reflexivity.
  - intros h Hs. apply (selected_is_pool_member model_name d c h Hs).
Qed.

Lemma select_instance_none_iff_witness :
  is_available (snd Scenarios.trio_first) = true
  /\ nth_error (instances Scenarios.trio) (fst Scenarios.trio_first)
     = Some (snd Scenarios.trio_first).
Proof.
  apply (proj2 (select_instance_none_iff "llava" 0 Scenarios.trio)
           Scenarios.trio_first eq_refl).
Defined.

(** *** The strategies that rank the candidates *)

Section FirstBest.

Context {A : Type} (better : A -> A -> bool).
Hypothesis better_trans :
  forall x y z, better x y = true -> better y z = true -> better x z = true.
Hypothesis better_neg :
  forall x y z, better x y = true -> better z y = false -> better x z = true.

Lemma first_best_split (l : list A) (best : A) :
  let r := first_best better best l in
  (r = best /\ forall x, In x l -> better x best = false)
  \/ (exists l1 l2, l = l1 ++ r :: l2 /\ better r best = true
        /\ (forall x, In x l1 -> better r x = true)
        /\ (forall x, In x l2 -> better x r = false)).
Proof.
  revert best. induction l as [|x l IH]; intro best; cbn zeta.
  - left. split; [reflexivity | intros x []].
  - cbn [first_best]. destruct (better x best) eqn:E.
    + right. destruct (IH x) as [[Hr Hall]|(l1 & l2 & Hl & Hb & H1 & H2)].
      * exists [], l. rewrite Hr. repeat split; auto; intros y [].
      * exists (x :: l1), l2. repeat split.
        -- cbn. f_equal. exact Hl.
        -- exact (better_trans _ _ _ Hb E).
        -- intros y [<-|Hy]; auto.
        -- exact H2.
    + destruct (IH best) as [[Hr Hall]|(l1 & l2 & Hl & Hb & H1 & H2)].
      * left. split; [exact Hr|]. intros y [<-|Hy]; auto.
      * right. exists (x :: l1), l2. repeat split.
        -- cbn. f_equal. exact Hl.
        -- exact Hb.
        -- intros y [<-|Hy]; [exact (better_neg _ _ _ Hb E) | auto].
        -- exact H2.
Qed.

(** The element chosen from a list comes after elements it beats strictly
    and before elements that do not beat it. *)
Lemma first_best_of_split (l : list A) (r : A) :
  first_best_of better l = Some r ->
  exists l1 l2, l = l1 ++ r :: l2
    /\ (forall x, In x l1 -> better r x = true)
    /\ (forall x, In x l2 -> better x r = false).
Proof.
  destruct l as [|x l]; [discriminate|]. cbn [first_best_of].
  intro H. injection H as <-.
  destruct (first_best_split l x) as [[Hr Hall]|(l1 & l2 & Hl & Hb & H1 & H2)].
  - exists [], l. rewrite Hr. repeat split; auto; intros y [].
  - exists (x :: l1), l2. repeat split.
    + cbn. f_equal. exact Hl.
    + intros y [<-|Hy]; auto.
    + exact H2.
Qed.

End FirstBest.

(** Under [least_busy] the selection is the first instance to use with the
    fewest active requests: every earlier one has strictly more, every
    later one at least as many.  The round-robin cursor is not touched. *)
Theorem least_busy_picks_first_minimum (model_name : string) (d : nat)
    (c : OllamaClient) (h : handle) :
  load_balancing_strategy c = "least_busy"%string ->
  selected (_select_instance model_name d c) = Some h ->
  (exists l1 l2, instances_to_use model_name c = l1 ++ h :: l2
     /\ (forall x, In x l1 -> active_requests (snd h) < active_requests (snd x))
     /\ (forall x, In x l2 -> active_requests (snd h) <= active_requests (snd x)))
  /\ client_after (_select_instance model_name d c) = c.
Proof.
  intros Hs. unfold _select_instance, instances_to_use.
  destruct (candidates model_name c) as [|h0 l0]; [discriminate|].
  destruct (healthy_or_all (h0 :: l0)) as [to_use pause]. rewrite Hs.
  cbn [String.eqb Ascii.eqb Bool.eqb selected client_after fst].
  intro H. split; [|reflexivity].
  apply first_best_of_split in H.
  - destruct H as (l1 & l2 & Hl & H1 & H2). exists l1, l2.
    split; [exact Hl|]. split.
    + intros x Hx. apply Z.ltb_lt. exact (H1 x Hx).
    + intros x Hx. apply Z.ltb_ge. exact (H2 x Hx).
  - intros x y z Hx Hy. apply Z.ltb_lt in Hx, Hy. apply Z.ltb_lt. lia.
  - intros x y z Hx Hy. apply Z.ltb_lt in Hx. apply Z.ltb_ge in Hy.
    apply Z.ltb_lt. lia.
Qed.

Lemma least_busy_picks_first_minimum_witness :
  client_after (_select_instance "llava" 0
                  (set_strategy "least_busy" Scenarios.trio))
  = set_strategy "least_busy" Scenarios.trio.
Proof.
  apply (least_busy_picks_first_minimum "llava" 0
           (set_strategy "least_busy" Scenarios.trio) Scenarios.trio_first
           eq_refl eq_refl).
Defined.

(** Under [health_based] the selection is the first instance to use with
    the highest health score: every earlier one scores strictly less, no
    later one scores more.  The round-robin cursor is not touched. *)
Theorem health_based_picks_first_maximum (model_name : string) (d : nat)
    (c : OllamaClient) (h : handle) :
  load_balancing_strategy c = "health_based"%string ->
  selected (_select_instance model_name d c) = Some h ->
  (exists l1 l2, instances_to_use model_name c = l1 ++ h :: l2
     /\ (forall x, In x l1 ->
           (get_health_score (snd x) < get_health_score (snd h))%Q)
     /\ (forall x, In x l2 ->
           (get_health_score (snd x) <= get_health_score (snd h))%Q))
  /\ client_after (_select_instance model_name d c) = c.
Proof.
  intros Hs. unfold _select_instance, instances_to_use.
  destruct (candidates model_name c) as [|h0 l0]; [discriminate|].
  destruct (healthy_or_all (h0 :: l0)) as [to_use pause]. rewrite Hs.
  cbn [String.eqb Ascii.eqb Bool.eqb selected client_after fst].
  intro H. split; [|reflexivity].
  apply first_best_of_split in H.
  - destruct H as (l1 & l2 & Hl & H1 & H2). exists l1, l2.
    split; [exact Hl|]. split.
    + intros x Hx. apply Qgt_bool_iff. exact (H1 x Hx).
    + intros x Hx. apply Qgt_bool_false_iff. exact (H2 x Hx).
  - intros x y z Hx Hy. apply Qgt_bool_iff in Hx, Hy. apply Qgt_bool_iff. lra.
  - intros x y z Hx Hy. apply Qgt_bool_iff in Hx. apply Qgt_bool_false_iff in Hy.
    apply Qgt_bool_iff. lra.
Qed.

Lemma health_based_picks_first_maximum_witness :
  client_after (_select_instance "llava" 0
                  (set_strategy "health_based" Scenarios.trio))
  = set_strategy "health_based" Scenarios.trio.
Proof.
  apply (health_based_picks_first_maximum "llava" 0
           (set_strategy "health_based" Scenarios.trio) Scenarios.trio_first
           eq_refl eq_refl).
Defined.

(** Under [fastest] the selection is the first instance with the lowest
    average latency among the instances to use that have served a request;
    when none has, the selection is the round-robin one and the cursor
    moves on. *)
Theorem fastest_picks_first_minimum (model_name : string) (d : nat)
    (c : OllamaClient) (h : handle) :
  load_balancing_strategy c = "fastest"%string ->
  selected (_select_instance model_name d c) = Some h ->
  let pool := instances_to_use model_name c in
  let history := filter (fun x => 0 <? total_requests (snd x)) pool in
  (history <> [] ->
   (exists l1 l2, history = l1 ++ h :: l2
      /\ (forall x, In x l1 ->
            (get_average_response_time (snd h)
             < get_average_response_time (snd x))%Q)
      /\ (forall x, In x l2 ->
            (get_average_response_time (snd h)
             <= get_average_response_time (snd x))%Q))
   /\ client_after (_select_instance model_name d c) = c)
  /\ (history = [] ->
      nth_error pool (current_instance_index c mod List.length pool)%nat = Some h
      /\ client_after (_select_instance model_name d c) = advance_cursor c).
Proof.
  intros Hs. unfold _select_instance, instances_to_use.
  destruct (candidates model_name c) as [|h0 l0]; [discriminate|].
  destruct (healthy_or_all (h0 :: l0)) as [to_use pause]. rewrite Hs.
  cbn [String.eqb Ascii.eqb Bool.eqb fst].
  destruct (filter (fun x => 0 <? total_requests (snd x)) to_use) as [|v vs] eqn:F;
    cbn [selected client_after round_robin_step]; intro H; cbn zeta; split.
  - intro Hne. contradiction.
  - intros _. split; [exact H | reflexivity].
  - intros _. split; [|reflexivity]. apply first_best_of_split in H.
    + destruct H as (l1 & l2 & Hl & H1 & H2). exists l1, l2.
      split; [exact Hl|]. split.
      * intros x Hx. apply Qgt_bool_iff. exact (H1 x Hx).
      * intros x Hx. apply Qgt_bool_false_iff. exact (H2 x Hx).
    + intros x y z Hx Hy. apply Qgt_bool_iff in Hx, Hy. apply Qgt_bool_iff. lra.
    + intros x y z Hx Hy. apply Qgt_bool_iff in Hx.
      apply Qgt_bool_false_iff in Hy. apply Qgt_bool_iff. lra.
  - intro E. discriminate E.
Qed.

Lemma fastest_picks_first_minimum_witness :
  nth_error (instances_to_use "llava" (set_strategy "fastest" Scenarios.trio)) 0
  = Some Scenarios.trio_first
  /\ client_after (_select_instance "llava" 0
                     (set_strategy "fastest" Scenarios.trio))
     = advance_cursor (set_strategy "fastest" Scenarios.trio).
Proof.
  apply (fastest_picks_first_minimum "llava" 0
           (set_strategy "fastest" Scenarios.trio) Scenarios.trio_first
           eq_refl eq_refl).
  reflexivity.
Defined.

(** * Further properties of the request loops *)

Lemma select_instance_frame (model : string) (d : nat) (c : OllamaClient) :
  let c' := client_after (_select_instance model d c) in
  instances c' = instances c
  /\ load_balancing_strategy c' = load_balancing_strategy c
  /\ max_concurrent_requests c' = max_concurrent_requests c.
Proof.
  cbn zeta. split; [apply select_instance_instances|].
  unfold _select_instance.
  destruct (candidates model c); [split; reflexivity|].
  destruct (healthy_or_all (h :: l)) as [to_use pause].
  repeat match goal with
         | |- context [if ?b then _ else _] => destruct b
         | |- context [match ?x with [] => _ | _ :: _ => _ end] => destruct x
         end; split; reflexivity.
Qed.




(** A result of [generate] or [chat] is always the body of an answer with
    status 200 that the world gave within the retry bound: no other path
    returns a text. *)
Lemma request_loop_returns_an_answer (api : endpoint) (w : world)
    (model : string) (remaining retries : nat) (c : OllamaClient) (sent : nat)
    (text : string) :
  returned (request_loop api w model remaining retries c sent) = Some text ->
  exists n, (retries <= n < retries + remaining)%nat
            /\ http (w api n) = Response 200 (Some text).
Proof.
  revert retries c sent.
  induction remaining as [|remaining IH]; intros retries c sent;
    [discriminate|].
  cbn [request_loop].
  destruct (selected (_select_instance model (draw (w api retries)) c))
    as [[k instance]|]; [|discriminate].
  assert (Hlater : forall c1 sent1,
            returned (request_loop api w model remaining (S retries) c1 sent1)
            = Some text ->
            exists n, (retries <= n < retries + S remaining)%nat
                      /\ http (w api n) = Response 200 (Some text)).
  { intros c1 sent1 H. destruct (IH _ _ _ H) as (n & Hn & Hw).
    exists n. split; [lia | exact Hw]. }
  destruct (negb (0 <? semaphore_value instance)); [apply Hlater|].
  destruct (http (w api retries)) as [status [body|]|] eqn:Eh;
    try apply Hlater.
  - destruct (Z.eqb_spec status 200) as [->|_]; [|apply Hlater].
    cbn. intro H. injection H as ->. exists retries. split; [lia | exact Eh].
  - destruct (status =? 200); apply Hlater.
Qed.

Theorem generate_returns_an_answer (w : world) (model : string)
    (max_retries : Z) (c : OllamaClient) (text : string) :
  (returned (generate w model max_retries c) = Some text ->
   exists n, Z.of_nat n < max_retries
             /\ http (w ApiGenerate n) = Response 200 (Some text))
  /\ (returned (chat w model max_retries c) = Some text ->
      exists n, Z.of_nat n < max_retries
                /\ http (w ApiChat n) = Response 200 (Some text)).
Proof.
  split; intro H;
    destruct (request_loop_returns_an_answer _ _ _ _ _ _ _ _ H) as (n & Hn & Hw);
    exists n; (split; [lia | exact Hw]).
Qed.

Lemma generate_returns_an_answer_witness :
  exists n, Z.of_nat n < 3
            /\ http (always_ok ApiGenerate n) = Response 200 (Some "{}"%string).
Proof.
  apply (proj1 (generate_returns_an_answer always_ok "llava" 3 Scenarios.solo
                  "{}")).
  reflexivity.
Defined.

Lemma sound_update_instance (k : nat) (f : OllamaInstance -> OllamaInstance)
    (c : OllamaClient) :
  (forall i, sound_counters i -> sound_counters (f i)) ->
  Forall sound_counters (instances c) ->
  Forall sound_counters (instances (update_instance k f c)).
Proof. intros Hf Hc. cbn. apply Forall_update_nth; assumption. Qed.

Lemma sound_enter i : sound_counters i -> sound_counters (enter i).
Proof. exact (fun H => H). Qed.

Lemma sound_leave i : sound_counters i -> sound_counters (leave i).
Proof. exact (fun H => H). Qed.

#[local] Hint Resolve sound_update_instance sound_enter sound_leave
  update_stats_sound : pool.

Lemma request_loop_sound (api : endpoint) (w : world) (model : string)
    (remaining retries : nat) (c : OllamaClient) (sent : nat) :
  Forall sound_counters (instances c) ->
  Forall sound_counters
    (instances (final (request_loop api w model remaining retries c sent))).
Proof.
  revert retries c sent.
  induction remaining as [|remaining IH]; intros retries c sent Hc;
    [exact Hc|].
  cbn [request_loop].
  pose proof (select_instance_instances model (draw (w api retries)) c) as Hsel.
  destruct (_select_instance model (draw (w api retries)) c) as [sel c' pause].
  cbn [selected client_after] in *. rewrite <- Hsel in Hc.
  destruct sel as [[k instance]|]; [|exact Hc].
  destruct (negb (0 <? semaphore_value instance)); [apply IH, Hc|].
  destruct (http (w api retries)) as [status [text|]|];
    try destruct (status =? 200); cbn [final];
    try apply IH; auto 12 with pool.
Qed.

(** The counters stay sound through every call: whatever the world does,
    [generate] and [chat] leave [0 <= failed_requests <= total_requests] on
    every instance on which it held before, so every success rate
    afterwards is a percentage. *)
Theorem requests_keep_counters_sound (w : world) (model : string)
    (max_retries : Z) (c : OllamaClient) :
  Forall sound_counters (instances c) ->
  Forall sound_counters (instances (final (generate w model max_retries c)))
  /\ Forall sound_counters (instances (final (chat w model max_retries c)))
  /\ Forall (fun i => (0 <= get_success_rate i <= 100)%Q)
       (instances (final (generate w model max_retries c))).
Proof.
  intro Hc.
  assert (Hg := request_loop_sound ApiGenerate w model (Z.to_nat max_retries)
                  0 c 0 Hc).
  split; [exact Hg|]. split; [apply request_loop_sound; exact Hc|].
  unfold generate. revert Hg. apply Forall_impl.
  intros i Hi. apply success_rate_range. exact Hi.
Qed.

Lemma requests_keep_counters_sound_witness :
  Forall sound_counters
    (instances (final (generate always_refused "llava" 3 Scenarios.solo))).
Proof.
  refine (proj1 (requests_keep_counters_sound always_refused "llava" 3
                   Scenarios.solo _)).
  constructor; [unfold sound_counters; cbn; lia | constructor].
Defined.

Lemma request_loop_frame (api : endpoint) (w : world) (model : string)
    (remaining retries : nat) (c : OllamaClient) (sent : nat) :
  let r := request_loop api w model remaining retries c sent in
  map identity (instances (final r)) = map identity (instances c)
  /\ load_balancing_strategy (final r) = load_balancing_strategy c
  /\ max_concurrent_requests (final r) = max_concurrent_requests c
  /\ (current_instance_index c <= current_instance_index (final r)
      <= current_instance_index c + remaining)%nat.
Proof.
  revert retries c sent.
  induction remaining as [|remaining IH]; intros retries c sent; cbn zeta.
  - cbn. repeat split; lia.
  - cbn [request_loop].
    destruct (select_instance_frame model (draw (w api retries)) c)
      as (Hi & Hs & Hm).
    pose proof (select_instance_cursor model (draw (w api retries)) c) as Hcur.
    cbn zeta in Hcur.
    destruct (_select_instance model (draw (w api retries)) c) as [sel c' pause].
    cbn [selected client_after] in *.
    assert (Hstep : forall c1 sent1,
      map identity (instances c1) = map identity (instances c') ->
      load_balancing_strategy c1 = load_balancing_strategy c' ->
      max_concurrent_requests c1 = max_concurrent_requests c' ->
      current_instance_index c1 = current_instance_index c' ->
      let r := request_loop api w model remaining (S retries) c1 sent1 in
      map identity (instances (final r)) = map identity (instances c)
      /\ load_balancing_strategy (final r) = load_balancing_strategy c
      /\ max_concurrent_requests (final r) = max_concurrent_requests c
      /\ (current_instance_index c <= current_instance_index (final r)
          <= current_instance_index c + S remaining)%nat).
    { intros c1 sent1 H1 H2 H3 H4. cbn zeta.
      destruct (IH (S retries) c1 sent1) as (I1 & I2 & I3 & I4).
      rewrite I1, I2, I3, H1, H2, H3, Hi, Hs, Hm. repeat split; lia. }
    assert (Hdone : forall c1,
      map identity (instances c1) = map identity (instances c') ->
      load_balancing_strategy c1 = load_balancing_strategy c' ->
      max_concurrent_requests c1 = max_concurrent_requests c' ->
      current_instance_index c1 = current_instance_index c' ->
      map identity (instances c1) = map identity (instances c)
      /\ load_balancing_strategy c1 = load_balancing_strategy c
      /\ max_concurrent_requests c1 = max_concurrent_requests c
      /\ (current_instance_index c <= current_instance_index c1
          <= current_instance_index c + S remaining)%nat).
    { intros c1 H1 H2 H3 H4.
      rewrite H1, H2, H3, Hi, Hs, Hm. repeat split; lia. }
    assert (Hupd : forall k f c1,
      (forall i, identity (f i) = identity i) ->
      map identity (instances (update_instance k f c1))
      = map identity (instances c1)).
    { intros k f c1 Hf. cbn. apply map_update_nth. exact Hf. }
    destruct sel as [[k instance]|]; [|apply Hdone; reflexivity].
    destruct (negb (0 <? semaphore_value instance));
      [apply Hstep; reflexivity|].
    destruct (http (w api retries)) as [status [text|]|];
      try destruct (status =? 200); cbn [final];
      first [apply Hstep | apply Hdone]; try reflexivity;
      rewrite ?Hupd; reflexivity.
Qed.

(** What a call never changes: the size of the pool, the address, the
    availability and the model list of every instance, the strategy and the
    configured limit.  The round-robin cursor only moves forward, by at
    most one step per pass of the retry loop. *)
Theorem requests_leave_the_pool_alone (w : world) (model : string)
    (max_retries : Z) (c : OllamaClient) :
  let r := generate w model max_retries c in
  List.length (instances (final r)) = List.length (instances c)
  /\ map identity (instances (final r)) = map identity (instances c)
  /\ load_balancing_strategy (final r) = load_balancing_strategy c
  /\ max_concurrent_requests (final r) = max_concurrent_requests c
  /\ (current_instance_index c <= current_instance_index (final r)
      <= current_instance_index c + Z.to_nat max_retries)%nat.
Proof.
  cbn zeta. unfold generate.
  destruct (request_loop_frame ApiGenerate w model (Z.to_nat max_retries) 0 c 0)
    as (H1 & H2 & H3 & H4).
  split; [|repeat split; try assumption; lia].
  apply (f_equal (@List.length _)) in H1. rewrite !length_map in H1. exact H1.
Qed.

(** A call whose first request is answered with status 200 and a readable
    body, on a selected instance that has a free permit: the body is
    returned after that single request; the instance has one more request
    on record, no more failures, the latency of the answer as last and
    added latency, and its admission counters back where they were; no
    other instance is touched. *)
Theorem generate_succeeds_first_try (w : world) (model : string)
    (max_retries : Z) (c : OllamaClient) (k : nat) (inst : OllamaInstance)
    (text : string) :
  0 < max_retries ->
  selected (_select_instance model (draw (w ApiGenerate 0%nat)) c)
    = Some (k, inst) ->
  0 < semaphore_value inst ->
  http (w ApiGenerate 0%nat) = Response 200 (Some text) ->
  let r := generate w model max_retries c in
  let t := response_time (w ApiGenerate 0%nat) in
  returned r = Some text
  /\ posts r = 1%nat
  /\ (exists inst',
        nth_error (instances (final r)) k = Some inst'
        /\ total_requests inst' = total_requests inst + 1
        /\ failed_requests inst' = failed_requests inst
        /\ last_response_time inst' = t
        /\ total_processing_time inst' = (total_processing_time inst + t)%Q
        /\ admission inst' = admission inst)
  /\ (forall j, j <> k ->
        nth_error (instances (final r)) j = nth_error (instances c) j).
Proof.
  intros Hmax Hsel Hsem Hhttp. cbn zeta. unfold generate.
  destruct (Z.to_nat max_retries) as [|n] eqn:En; [lia|].
  cbn [request_loop].
  destruct (selected_is_pool_member model (draw (w ApiGenerate 0%nat)) c
              (k, inst) Hsel) as (_ & _ & _ & Hnth).
  cbn [fst snd] in Hnth.
  pose proof (select_instance_instances model (draw (w ApiGenerate 0%nat)) c)
    as Hinst.
  rewrite Hsel, Hhttp. apply Z.ltb_lt in Hsem. rewrite Hsem.
  cbn [negb Z.eqb Pos.eqb returned posts final update_instance set_instances
       instances].
  rewrite !update_nth_compose, Hinst.
  split; [reflexivity|]. split; [reflexivity|]. split.
  - eexists. rewrite nth_error_update_nth, Nat.eqb_refl, Hnth. cbn [option_map].
    split; [reflexivity|]. cbn. repeat split.
    unfold admission. cbn. f_equal; lia.
  - intros j Hj. rewrite nth_error_update_nth.
    destruct (Nat.eqb_spec j k); [contradiction | reflexivity].
Qed.

Lemma generate_succeeds_first_try_witness :
  returned (generate always_ok "llava" 3 Scenarios.trio) = Some "{}"%string
  /\ posts (generate always_ok "llava" 3 Scenarios.trio) = 1%nat.
Proof.
  destruct (generate_succeeds_first_try always_ok "llava" 3 Scenarios.trio
              (fst Scenarios.trio_first) (snd Scenarios.trio_first) "{}"
              eq_refl eq_refl eq_refl eq_refl) as (H1 & H2 & _).
  split; [exact H1 | exact H2].
Defined.

(** * Further properties of the batch loop *)

Lemma submit_spec (t : tick) (batch in_flight : list path) :
  let futures := fst (submit t batch in_flight) in
  let in_flight' := snd (submit t batch in_flight) in
  NoDup futures
  /\ (forall p, In p futures ->
        In p batch /\ ~ In p in_flight /\ paused_at t p = false)
  /\ (forall p, In p in_flight' <-> In p in_flight \/ In p futures)
  /\ (forall p, In p batch -> paused_at t p = false -> In p in_flight')
  /\ (List.length futures <= List.length batch)%nat.
Proof.
  revert in_flight. induction batch as [|x rest IH]; intro in_flight; cbn zeta.
  - cbn. repeat split; try (intros p []); try tauto; [constructor | lia].
  - cbn [submit]. destruct (paused_at t x) eqn:Ep.
    + destruct (IH in_flight) as (H1 & H2 & H3 & H4 & H5).
      split; [exact H1|]. split; [|split; [exact H3|split]].
      * intros p Hp. destruct (H2 p Hp) as (Ha & Hb & Hc).
        repeat split; [right|..]; assumption.
      * intros p [<-|Hp] Hq; [congruence | auto].
      * cbn [List.length]. lia.
    + destruct (existsb (String.eqb x) in_flight) eqn:Ex.
      * destruct (IH in_flight) as (H1 & H2 & H3 & H4 & H5).
        split; [exact H1|]. split; [|split; [exact H3|split]].
        -- intros p Hp. destruct (H2 p Hp) as (Ha & Hb & Hc).
           repeat split; [right|..]; assumption.
        -- intros p [<-|Hp] Hq; [|auto].
           apply H3. left. apply existsb_exists in Ex.
           destruct Ex as (y & Hy & Heq). apply String.eqb_eq in Heq.
           subst y. exact Hy.
        -- cbn [List.length]. lia.
      * destruct (IH (x :: in_flight)) as (H1 & H2 & H3 & H4 & H5).
        destruct (submit t rest (x :: in_flight)) as [futures in_flight'].
        cbn [fst snd] in *.
        assert (Hx : ~ In x in_flight).
        { intro Hin. apply Bool.not_true_iff_false in Ex. apply Ex.
          apply existsb_exists. exists x. split; [exact Hin|].
          apply String.eqb_refl. }
        split; [|split; [|split; [|split]]].
        -- constructor; [|exact H1]. intro Hin.
           destruct (H2 x Hin) as (_ & Hb & _). apply Hb. left. reflexivity.
        -- intros p [<-|Hp]; [repeat split; auto; left; reflexivity|].
           destruct (H2 p Hp) as (Ha & Hb & Hc).
           repeat split; [right; exact Ha | | exact Hc].
           intro Hin. apply Hb. right. exact Hin.
        -- intro p. rewrite H3. cbn [In]. tauto.
        -- intros p [<-|Hp] Hq; [apply H3; left; left; reflexivity | auto].
        -- cbn [List.length]. lia.
Qed.

(** The in-flight set does its work: within one batch no path is handed to
    the pool twice, none that is already in flight is handed over again,
    and every path handed over comes from the batch.  A path of the batch
    that is not met during a pause is in flight afterwards. *)
Theorem submit_never_duplicates (t : tick) (batch in_flight : list path) :
  let futures := fst (submit t batch in_flight) in
  let in_flight' := snd (submit t batch in_flight) in
  NoDup futures
  /\ (forall p, In p futures -> In p batch /\ ~ In p in_flight)
  /\ (forall p, In p in_flight -> In p in_flight')
  /\ (forall p, In p batch -> paused_at t p = false -> In p in_flight').
Proof.
  cbn zeta.
  destruct (submit_spec t batch in_flight) as (Hnd & Hfrom & Hin & Hall & _).
  split; [exact Hnd|]. split; [|split; [|exact Hall]].
  - intros p Hp. destruct (Hfrom p Hp) as (Hb & Hf & _). split; assumption.
  - intros p Hp. apply Hin. left. exact Hp.
Qed.

Lemma submit_never_duplicates_witness :
  fst (submit calm_tick ["/photos/a.jpg"; "/photos/a.jpg"]%string []) 
  = ["/photos/a.jpg"%string]
  /\ In "/photos/a.jpg"%string
       (snd (submit calm_tick ["/photos/a.jpg"; "/photos/a.jpg"]%string [])).
Proof.
  split; [reflexivity|].
  apply (proj2 (proj2 (proj2
           (submit_never_duplicates calm_tick
              ["/photos/a.jpg"; "/photos/a.jpg"]%string []))));
    [left; reflexivity | reflexivity].
Defined.

Lemma collect_counts (t : tick) (futures : list path) (s : run_state) (n : nat) :
  let s' := fst (collect t futures s n) in
  counted s' = (counted s + List.length futures)%nat
  /\ stats_check_counter s' = stats_check_counter s
  /\ (forall p, In p (processing_images s') ->
        In p (processing_images s) /\ ~ In p futures).
Proof.
  revert s n. induction futures as [|x rest IH]; intros s n; cbn zeta.
  - cbn. repeat split; [lia | tauto | tauto].
  - cbn [collect].
    assert (Hd : forall p, In p (discard x (processing_images s)) ->
                           In p (processing_images s) /\ p <> x).
    { intros p Hp. unfold discard in Hp. apply filter_In in Hp.
      destruct Hp as [Hp Hne]. split; [exact Hp|].
      intros ->. rewrite String.eqb_refl in Hne. discriminate Hne. }
    destruct (process_image t x);
      match goal with
      | |- context [collect t rest ?s1 ?n1] =>
        destruct (IH s1 n1) as (H1 & H2 & H3)
      end;
      (split; [rewrite H1; unfold counted; cbn; lia|];
       split; [rewrite H2; reflexivity|];
       intros p Hp; destruct (H3 p Hp) as [Ha Hb]; cbn in Ha;
       destruct (Hd p Ha) as [Hc He]; split; [exact Hc|];
       intros [Hx|Hx]; [congruence | contradiction]).
Qed.

(** What a pass does to the counters: nothing when it stops, waits or is
    skipped for load; otherwise every path handed to the pool is counted
    exactly once, as processed, skipped or failed. *)
Lemma pass_counts (cfg : settings) (image_files : list path) (t : tick)
    (s : run_state) :
  let batch := current_batch cfg image_files s in
  let futures := fst (submit t batch (processing_images s)) in
  match pass cfg image_files t s with
  | Break s' => s' = s
  | Continue s' =>
    (paused t = true /\ s' = s)
    \/ (paused t = false
        /\ batch_index s' = (batch_index s + List.length batch)%nat
        /\ ((Qgt_bool (system_load t) 90 = true /\ counted s' = counted s
             /\ processing_images s' = processing_images s)
            \/ (Qgt_bool (system_load t) 90 = false
                /\ counted s' = (counted s + List.length futures)%nat
                /\ forall p, In p (processing_images s') ->
                             In p (processing_images s) /\ ~ In p futures)))
  end.
Proof.
  cbn zeta. unfold pass.
  destruct (should_stop t); [reflexivity|].
  destruct (paused t); [left; split; reflexivity|].
  cbn [take_batch processing_images batch_index consecutive_failures
       adaptive_pause stats_check_counter processed_images skipped_images
       failed_images].
  destruct (Qgt_bool (system_load t) 90) eqn:El.
  - right. split; [reflexivity|]. split; [reflexivity|]. left. repeat split.
  - pose proof (submit_spec t (current_batch cfg image_files s)
                  (processing_images s)) as Hsub. cbn zeta in Hsub.
    destruct (submit t (current_batch cfg image_files s) (processing_images s))
      as [futures in_flight]. cbn [fst snd] in *.
    destruct Hsub as (_ & Hf & Hin & _ & _).
    match goal with
    | |- context [collect t futures ?s1 0%nat] =>
      pose proof (collect_counts t futures s1 0%nat) as Hc;
        pose proof (collect_spec t futures s1 0%nat) as Hs;
        destruct (collect t futures s1 0%nat) as [s2 failures]
    end.
    cbn zeta in Hc, Hs. cbn [fst snd] in Hc, Hs.
    destruct Hc as (Hcount & _ & Hfl). destruct Hs as (_ & _ & Hbi & _).
    cbn [batch_index processing_images] in *.
    assert (Hadapt : forall k, counted (count_batch (adapt cfg k s2)) = counted s2
              /\ batch_index (count_batch (adapt cfg k s2)) = batch_index s2
              /\ processing_images (count_batch (adapt cfg k s2))
                 = processing_images s2).
    { intro k. unfold adapt. destruct (0 <? k)%nat; repeat split. }
    destruct (Hadapt failures) as (A1 & A2 & A3).
    right. split; [reflexivity|]. rewrite A1, A2, A3.
    split; [exact Hbi|]. right. split; [reflexivity|]. split.
    + rewrite Hcount. reflexivity.
    + intros p Hp. destruct (Hfl p Hp) as [Ha Hb]. split; [|exact Hb].
      apply Hin in Ha. destruct Ha as [Ha|Ha]; [exact Ha | contradiction].
Qed.

Lemma current_batch_length (cfg : settings) (image_files : list path)
    (s : run_state) :
  (List.length (current_batch cfg image_files s)
   <= List.length image_files - batch_index s)%nat
  /\ ((batch_index s < List.length image_files)%nat ->
      (1 <= List.length (current_batch cfg image_files s))%nat).
Proof.
  unfold current_batch, current_batch_size.
  rewrite length_firstn, length_skipn. split; [lia|]. intro H.
  assert (1 <= Z.to_nat (Z.max 1 (batch_size cfg - consecutive_failures s)))%nat
    by lia.
  lia.
Qed.

Lemma current_batch_NoDup (cfg : settings) (image_files : list path)
    (s : run_state) :
  NoDup image_files -> NoDup (current_batch cfg image_files s).
Proof.
  intro H. unfold current_batch.
  rewrite <- (firstn_skipn (batch_index s) image_files) in H.
  apply NoDup_app_remove_l in H.
  rewrite <- (firstn_skipn (Z.to_nat (current_batch_size cfg s))
                (skipn (batch_index s) image_files)) in H.
  exact (NoDup_app_remove_r _ _ H).
Qed.

Lemma batch_loop_never_overcounts (cfg : settings) (image_files : list path)
    (ticks : list tick) (base : nat) (s s' : run_state) :
  (counted s <= base + batch_index s)%nat ->
  (batch_index s <= List.length image_files)%nat ->
  batch_loop cfg image_files ticks s = Some s' ->
  (counted s' <= base + batch_index s')%nat
  /\ (batch_index s' <= List.length image_files)%nat.
Proof.
  revert s. induction ticks as [|t later IH]; intros s Hc Hb; cbn [batch_loop].
  - destruct (batch_index s <? List.length image_files)%nat; [discriminate|].
    intro H. injection H as <-. split; assumption.
  - destruct (batch_index s <? List.length image_files)%nat;
      [|intro H; injection H as <-; split; assumption].
    pose proof (pass_counts cfg image_files t s) as Hp. cbn zeta in Hp.
    pose proof (current_batch_length cfg image_files s) as [Hlen _].
    pose proof (submit_spec t (current_batch cfg image_files s)
                  (processing_images s)) as (_ & _ & _ & _ & Hfut).
    destruct (pass cfg image_files t s) as [s1|s1].
    + subst s1. intro H. injection H as <-. split; assumption.
    + apply IH.
      * destruct Hp as [[_ ->]|(_ & Hbi & [(_ & Hcnt & _)|(_ & Hcnt & _)])];
          [assumption | lia | lia].
      * destruct Hp as [[_ ->]|(_ & Hbi & _)]; [assumption | lia].
Qed.

Lemma filter_partition_length {A : Type} (f : A -> bool) (l : list A) :
  (List.length (filter f l) + List.length (filter (fun x => negb (f x)) l)
   = List.length l)%nat.
Proof.
  induction l as [|a l IH]; [reflexivity|].
  cbn. destruct (f a); cbn; lia.
Qed.

(** The work list of [process_directory] and its cached part split the
    deduplicated images found. *)
Lemma work_list_split (is_cached : path -> bool) (files : list path) :
  let cached := filter is_cached files in
  let work := match cached with
              | [] => files
              | _ => filter (fun p => negb (existsb (String.eqb p) cached)) files
              end in
  (List.length cached + List.length work = List.length files)%nat
  /\ (NoDup files -> NoDup work)
  /\ (forall p, In p work <-> In p files /\ is_cached p = false).
Proof.
  cbn zeta.
  assert (E : filter (fun p => negb (existsb (String.eqb p) (filter is_cached files)))
                files
              = filter (fun p => negb (is_cached p)) files).
  { apply filter_ext_in. intros p Hp. f_equal.
    destruct (is_cached p) eqn:Ec.
    - apply existsb_exists. exists p. split; [|apply String.eqb_refl].
      apply filter_In. split; assumption.
    - apply not_true_is_false. intro H. apply existsb_exists in H.
      destruct H as (q & Hq & Heq). apply String.eqb_eq in Heq. subst q.
      apply filter_In in Hq. destruct Hq as [_ Hq]. congruence. }
  destruct (filter is_cached files) as [|x r] eqn:F.
  - split; [reflexivity|]. split; [auto|]. intro p. split; [|tauto].
    intro Hp. split; [exact Hp|]. apply not_true_is_false. intro Hc.
    assert (Hin : In p (filter is_cached files))
      by (apply filter_In; split; assumption).
    rewrite F in Hin. destruct Hin.
  - rewrite E, <- F. split; [apply filter_partition_length|].
    split; [apply NoDup_filter|].
    intro p. rewrite filter_In, negb_true_iff. reflexivity.
Qed.

(** A run never counts more than it found: whatever stops, pauses and load
    peaks occur, and whatever the images come back with, the processed,
    skipped and failed counts of the report add up to at most the total. *)
Theorem run_never_overcounts (cfg : settings) (found : list path)
    (in_cache : path -> bool) (ticks : list tick) (r : report) :
  process_directory cfg found in_cache ticks = Some r ->
  (accounted r <= total_images r)%nat
  /\ total_images r = List.length (nodup string_dec found).
Proof.
  unfold process_directory. cbv zeta.
  destruct (Nat.eqb_spec (List.length (nodup string_dec found)) 0) as [E|E].
  - intro H. injection H as <-. cbn. rewrite E. split; [lia | reflexivity].
  - set (is_cached := fun p => if force_processing cfg then false else in_cache p).
    pose proof (work_list_split is_cached (nodup string_dec found))
      as (Hlen & _ & _).
    cbv zeta in Hlen.
    match goal with
    | |- context [batch_loop cfg ?w ticks ?s0] => set (work := w) in *
    end.
    change ((List.length (filter is_cached (nodup string_dec found))
             + List.length work)%nat
            = List.length (nodup string_dec found)) in Hlen.
    destruct (batch_loop cfg work ticks _) as [s|] eqn:Hloop; [|discriminate].
    intro H. injection H as <-. split; [|reflexivity].
    apply (batch_loop_never_overcounts _ _ _
             (List.length (filter is_cached (nodup string_dec found)))) in Hloop.
    + unfold counted in Hloop. unfold accounted.
      cbn [total_images processed skipped failed]. unfold path in *. lia.
    + cbn. lia.
    + cbn. lia.
Qed.

Lemma run_never_overcounts_witness :
  (accounted (mkReport 1 0 0 0) <= total_images (mkReport 1 0 0 0))%nat.
Proof.
  exact (proj1 (run_never_overcounts default_settings one_image nothing_cached
                  [busy_tick] (mkReport 1 0 0 0) eq_refl)).
Defined.

Lemma submit_everything (t : tick) (batch in_flight : list path) :
  (forall p, paused_at t p = false) ->
  NoDup batch ->
  (forall p, In p batch -> ~ In p in_flight) ->
  fst (submit t batch in_flight) = batch.
Proof.
  intro Hq. revert in_flight.
  induction batch as [|x rest IH]; intros in_flight Hnd Hfree; [reflexivity|].
  cbn [submit]. rewrite Hq.
  assert (Ex : existsb (String.eqb x) in_flight = false).
  { apply not_true_is_false. intro H. apply existsb_exists in H.
    destruct H as (y & Hy & Heq). apply String.eqb_eq in Heq. subst y.
    exact (Hfree x (or_introl eq_refl) Hy). }
  rewrite Ex. inversion Hnd as [|? ? Hx Hrest]; subst.
  specialize (IH (x :: in_flight) Hrest).
  destruct (submit t rest (x :: in_flight)) as [futures in_flight'].
  cbn [fst] in *. f_equal. apply IH.
  intros p Hp [<-|Hin]; [contradiction | exact (Hfree p (or_intror Hp) Hin)].
Qed.

Lemma quiet_pass (cfg : settings) (image_files : list path) (t : tick)
    (s : run_state) :
  quiet t -> NoDup image_files -> processing_images s = [] ->
  exists s',
    pass cfg image_files t s = Continue s'
    /\ batch_index s'
       = (batch_index s + List.length (current_batch cfg image_files s))%nat
    /\ counted s'
       = (counted s + List.length (current_batch cfg image_files s))%nat
    /\ processing_images s' = [].
Proof.
  intros (Hstop & Hpause & Hload & Hsub) Hnd Hfl.
  pose proof (pass_counts cfg image_files t s) as Hp. cbn zeta in Hp.
  assert (Hc : exists s', pass cfg image_files t s = Continue s').
  { unfold pass. rewrite Hstop, Hpause.
    destruct (Qgt_bool (system_load t) 90); [eexists; reflexivity|].
    destruct (submit t _ _) as [futures in_flight].
    destruct (collect t futures _ 0%nat) as [s2 k]. eexists. reflexivity. }
  destruct Hc as [s' Hs']. rewrite Hs' in Hp. exists s'.
  split; [exact Hs'|].
  apply Qgt_bool_false_iff in Hload.
  destruct Hp as [[Hp _]|(_ & Hbi & [(Hl & _)|(_ & Hcnt & Hin)])];
    [congruence | congruence |].
  assert (Hall : fst (submit t (current_batch cfg image_files s)
                        (processing_images s))
                 = current_batch cfg image_files s).
  { apply (submit_everything t _ _ Hsub).
    - apply current_batch_NoDup, Hnd.
    - intros p _. rewrite Hfl. intros []. }
  rewrite Hall in Hcnt.
  split; [exact Hbi|]. split; [exact Hcnt|].
  destruct (processing_images s') as [|p r]; [reflexivity|].
  exfalso. destruct (Hin p (or_introl eq_refl)) as [Hp _].
  rewrite Hfl in Hp. destruct Hp.
Qed.

Lemma quiet_loop (cfg : settings) (image_files : list path)
    (ticks : list tick) (base : nat) (s : run_state) :
  Forall quiet ticks -> NoDup image_files ->
  processing_images s = [] ->
  counted s = (base + batch_index s)%nat ->
  (batch_index s <= List.length image_files)%nat ->
  (forall s', batch_loop cfg image_files ticks s = Some s' ->
     counted s' = (base + List.length image_files)%nat)
  /\ ((List.length image_files - batch_index s <= List.length ticks)%nat ->
      exists s', batch_loop cfg image_files ticks s = Some s').
Proof.
  intros Hq Hnd. revert s.
  induction Hq as [|t later Ht Hlater IH]; intros s Hfl Hc Hb; cbn [batch_loop].
  - destruct (Nat.ltb_spec (batch_index s) (List.length image_files)) as [Hlt|Hge].
    + split; [discriminate | cbn; lia].
    + split; [|eexists; reflexivity].
      intros s' H. injection H as <-. rewrite Hc. f_equal. lia.
  - destruct (Nat.ltb_spec (batch_index s) (List.length image_files)) as [Hlt|Hge].
    + destruct (quiet_pass cfg image_files t s Ht Hnd Hfl)
        as (s1 & Hpass & Hbi & Hcnt & Hfl1).
      destruct (current_batch_length cfg image_files s) as [Hmax Hmin].
      specialize (Hmin Hlt). rewrite Hpass.
      assert (Hc1 : counted s1 = (base + batch_index s1)%nat) by lia.
      assert (Hb1 : (batch_index s1 <= List.length image_files)%nat) by lia.
      destruct (IH s1 Hfl1 Hc1 Hb1) as [I1 I2].
      split; [exact I1|]. intro Hlen. apply I2. cbn [List.length] in Hlen. lia.
    + split; [|eexists; reflexivity].
      intros s' H. injection H as <-. rewrite Hc. f_equal. lia.
Qed.

(** An undisturbed run accounts for every image: when nobody stops or
    pauses the run and no CPU sample exceeds 90 percent, the report of
    [process_directory] has processed + skipped + failed = total, whatever
    the images come back with; and it is reached as soon as the run is
    given as many passes as there are images. *)
Theorem quiet_run_accounts_for_every_image (cfg : settings) (found : list path)
    (in_cache : path -> bool) (ticks : list tick) :
  Forall quiet ticks ->
  (forall r, process_directory cfg found in_cache ticks = Some r ->
     accounted r = total_images r
     /\ total_images r = List.length (nodup string_dec found))
  /\ ((List.length found <= List.length ticks)%nat ->
      exists r, process_directory cfg found in_cache ticks = Some r).
Proof.
  intro Hq. unfold process_directory. cbv zeta.
  destruct (Nat.eqb_spec (List.length (nodup string_dec found)) 0) as [E|E].
  - split; [|eexists; reflexivity].
    intros r H. injection H as <-. cbn. rewrite E. split; reflexivity.
  - set (is_cached := fun p => if force_processing cfg then false else in_cache p).
    pose proof (work_list_split is_cached (nodup string_dec found))
      as (Hlen & Hnd & _).
    cbv zeta in Hlen, Hnd. specialize (Hnd (NoDup_nodup string_dec found)).
    match goal with
    | |- context [batch_loop cfg ?w ticks ?s0] =>
      set (work := w) in *; set (start := s0) in *
    end.
    change ((List.length (filter is_cached (nodup string_dec found))
             + List.length work)%nat
            = List.length (nodup string_dec found)) in Hlen.
    change (NoDup work) in Hnd.
    destruct (quiet_loop cfg work ticks
                (List.length (filter is_cached (nodup string_dec found)))
                start Hq Hnd eq_refl) as [Hall Hex].
    + unfold counted, start. cbn. lia.
    + cbn. lia.
    + split.
      * intros r Hr.
        destruct (batch_loop cfg work ticks start) as [s|] eqn:Hloop;
          [|discriminate].
        injection Hr as <-. split; [|reflexivity].
        specialize (Hall s eq_refl). unfold counted in Hall. unfold accounted.
        cbn [total_images processed skipped failed]. unfold path in *. lia.
      * intro Hticks.
        assert (Hfound : (List.length (nodup string_dec found)
                          <= List.length found)%nat).
        { apply NoDup_incl_length; [apply NoDup_nodup|].
          intros p Hp. apply nodup_In in Hp. exact Hp. }
        destruct Hex as [s Hs].
        { cbn [batch_index start]. unfold start. cbn [batch_index].
          unfold path in *. lia. }
        rewrite Hs. eexists. reflexivity.
Qed.

Lemma quiet_run_accounts_for_every_image_witness :
  exists r, process_directory default_settings one_image nothing_cached
              [calm_tick] = Some r.
Proof.
  refine (proj2 (quiet_run_accounts_for_every_image default_settings one_image
                   nothing_cached [calm_tick] _) _).
  - constructor; [|constructor].
    repeat split; try reflexivity. vm_compute. discriminate.
  - cbn. lia.
Defined.

Lemma adapt_tame (cfg : settings) (image_files : list path) (k : nat)
    (s : run_state) :
  (0 <= pause_between_batches cfg <= 60)%Q ->
  tame cfg image_files s -> tame cfg image_files (adapt cfg k s).
Proof.
  intros [Hf0 Hf60] (Hcf & [Hlo Hhi] & Hbi). unfold tame, adapt.
  destruct (0 <? k)%nat; cbn; (split; [lia|]); (split; [|exact Hbi]).
  - destruct (Q.min_spec 60 (adaptive_pause s * (15 # 10)))
      as [[Hm E]|[Hm E]]; rewrite E; split; lra.
  - destruct (Q.max_spec (pause_between_batches cfg) (adaptive_pause s * (8 # 10)))
      as [[Hm E]|[Hm E]]; rewrite E; split; lra.
Qed.

Lemma pass_tame (cfg : settings) (image_files : list path) (t : tick)
    (s : run_state) :
  (0 <= pause_between_batches cfg <= 60)%Q ->
  tame cfg image_files s ->
  match pass cfg image_files t s with
  | Break s' | Continue s' => tame cfg image_files s'
  end.
Proof.
  intros Hfloor Hs. unfold pass.
  destruct (should_stop t); [exact Hs|].
  destruct (paused t); [exact Hs|].
  destruct (current_batch_length cfg image_files s) as [Hlen _].
  assert (Htake : tame cfg image_files
                    (take_batch (List.length (current_batch cfg image_files s)) s)).
  { destruct Hs as (Hcf & Hp & Hbi). repeat split; try assumption; try apply Hp.
    cbn. lia. }
  destruct (Qgt_bool (system_load t) 90); [exact Htake|].
  destruct (submit t _ _) as [futures in_flight].
  match goal with
  | |- context [collect t futures ?s1 0%nat] =>
    pose proof (collect_spec t futures s1 0%nat) as Hc;
      destruct (collect t futures s1 0%nat) as [s2 failures]
  end.
  cbn zeta in Hc. cbn [fst snd consecutive_failures adaptive_pause batch_index
                       take_batch] in Hc.
  destruct Hc as (Hcf & Hap & Hbi & _).
  assert (H2 : tame cfg image_files s2).
  { unfold tame. rewrite Hcf, Hap, Hbi. exact Htake. }
  apply (adapt_tame cfg image_files failures) in H2; [|exact Hfloor].
  exact H2.
Qed.

(** The adaptation stays within its bounds throughout a run, whatever
    happens: with a configured pause between 0 and 60 seconds, the pause
    between batches never leaves the range from that floor to 60 seconds,
    the failure count never goes negative, the index never runs past the
    work list, and the next batch size lies between 1 and the configured
    batch size (or is 1 when that is smaller). *)
Theorem adaptation_stays_in_bounds (cfg : settings) (image_files : list path)
    (ticks : list tick) (s s' : run_state) :
  (0 <= pause_between_batches cfg <= 60)%Q ->
  tame cfg image_files s ->
  batch_loop cfg image_files ticks s = Some s' ->
  tame cfg image_files s'
  /\ 1 <= current_batch_size cfg s' <= Z.max 1 (batch_size cfg).
Proof.
  intros Hfloor Hs Hloop.
  assert (Ht : tame cfg image_files s').
  { revert s Hs Hloop. induction ticks as [|t later IH]; intros s Hs;
      cbn [batch_loop];
      destruct (batch_index s <? List.length image_files)%nat;
      try discriminate; try (intro H; injection H as <-; exact Hs).
    pose proof (pass_tame cfg image_files t s Hfloor Hs) as Hp.
    destruct (pass cfg image_files t s) as [s1|s1].
    - intro H. injection H as <-. exact Hp.
    - apply IH. exact Hp. }
  split; [exact Ht|]. destruct Ht as (Hcf & _ & _).
  unfold current_batch_size. lia.
Qed.

Lemma adaptation_stays_in_bounds_witness :
  tame default_settings one_image
    (count_batch (adapt default_settings 1
                    (take_batch 1 (initial default_settings)))).
Proof.
  refine (proj1 (adaptation_stays_in_bounds default_settings one_image
                   [failing_tick] (initial default_settings) _ _ _ eq_refl)).
  - split; discriminate.
  - repeat split; cbn; try lia; discriminate.
Defined.

(** * Properties of the log and of the progress snapshot *)

Lemma last_n_split {A : Type} (n : nat) (l : list A) :
  exists dropped, l = dropped ++ Progress.last_n n l
    /\ List.length (Progress.last_n n l) = Nat.min n (List.length l).
Proof.
  unfold Progress.last_n. exists (firstn (List.length l - n) l). split.
  - symmetry. apply firstn_skipn.
  - rewrite length_skipn. lia.
Qed.


Lemma add_log_length (stamp : Q -> string) (now : Q) (message : string)
    (st : Progress.log_state) :
  (List.length (Progress.logs st) <= 1000)%nat ->
  (List.length (Progress.logs (Progress.add_log stamp now message st)) <= 1000)%nat.
Proof.
  intro H. unfold Progress.add_log.
  destruct (match Progress.last_log_message st, Progress.last_log_time st with
            | Some previous, Some before =>
              String.eqb previous message && Qgt_bool 2 (now - before)
            | _, _ => false
            end); [exact H|].
  cbn [Progress.logs]. rewrite length_app. cbn [List.length].
  destruct (Nat.leb_spec 1000 (List.length (Progress.logs st))) as [Hfull|Hroom];
    [|lia].
  destruct (last_n_split 500 (Progress.logs st)) as (_ & _ & Hlen). lia.
Qed.

(** However many messages are logged, from an empty log or from any log
    of at most a thousand entries, the log holds at most a thousand. *)
Theorem log_stays_bounded (stamp : Q -> string) (calls : list (Q * string))
    (st : Progress.log_state) :
  (List.length (Progress.logs st) <= 1000)%nat ->
  (List.length (Progress.logs (Progress.add_logs stamp calls st)) <= 1000)%nat.
Proof.
  revert st. induction calls as [|[now message] later IH]; intros st H;
    [exact H|].
  cbn [Progress.add_logs]. apply IH.
  apply add_log_length. exact H.
Qed.

Lemma log_stays_bounded_witness :
  (List.length
     (Progress.logs
        (Progress.add_logs (fun _ => "12:00:00"%string)
           [(0%Q, "Searching for images"%string);
            (1%Q, "Searching for images"%string)]
           (Progress.mkLog [] None None))) <= 1000)%nat.
Proof.
  apply (log_stays_bounded (fun _ => "12:00:00"%string)).
  cbn [Progress.logs List.length]. lia.
Defined.

(** [get_progress] raises, instead of returning a snapshot, exactly when a
    processing time is on record while the remaining-time branch is not
    taken: no run in progress, nothing done yet, everything done, or no
    start time.  In particular it raises once a run that processed an
    image is over. *)
Theorem get_progress_raises_iff (now : nat -> Q) (p : Progress.processor) :
  (Progress.get_progress now p = None
   <-> Progress.processing_times p <> []
       /\ Progress.elapsed_seconds now p = None)
  /\ (Progress.elapsed_seconds now p = None
      <-> Progress.is_processing p = false
          \/ Progress.processed_total p = 0%nat
          \/ (Progress.total_images p <= Progress.processed_total p)%nat
          \/ Progress.start_time p = None)
  /\ (Progress.is_processing p = false ->
      Progress.processing_times p <> [] ->
      Progress.get_progress now p = None).
Proof.
  assert (H1 : Progress.get_progress now p = None
               <-> Progress.processing_times p <> []
                   /\ Progress.elapsed_seconds now p = None).
  { unfold Progress.get_progress. cbv zeta.
    destruct (Progress.processing_times p) as [|x r].
    - split; [discriminate | intros [H _]; contradiction].
    - destruct (Progress.elapsed_seconds now p) as [seconds|].
      + destruct (Qgt_bool seconds 0); split; try discriminate;
          intros [_ H]; discriminate H.
      + split; [intros _; split; [discriminate | reflexivity] | reflexivity]. }
  assert (H2 : Progress.elapsed_seconds now p = None
               <-> Progress.is_processing p = false
                   \/ Progress.processed_total p = 0%nat
                   \/ (Progress.total_images p <= Progress.processed_total p)%nat
                   \/ Progress.start_time p = None).
  { unfold Progress.elapsed_seconds.
    destruct (Progress.is_processing p); cbn [andb].
    - destruct (Nat.ltb_spec 0 (Progress.processed_total p)); cbn [andb].
      + destruct (Nat.ltb_spec (Progress.processed_total p)
                    (Progress.total_images p)).
        * destruct (Progress.start_time p) as [started|].
          -- destruct (Progress.paused p), (Progress.pause_start_time p);
               (split; [discriminate|]);
               intros [Hx|[Hx|[Hx|Hx]]]; try discriminate Hx; lia.
          -- split; auto.
        * split; auto.
      + split; [intros _; right; left; lia | reflexivity].
    - split; auto. }
  split; [exact H1|]. split; [exact H2|].
  intros Hidle Htimes. apply H1. split; [exact Htimes|].
  apply H2. left. exact Hidle.
Qed.

Lemma get_progress_raises_iff_witness :
  Progress.get_progress Progress.steady_clock Progress.after_a_run = None.
Proof.
  apply (proj2 (proj2 (get_progress_raises_iff Progress.steady_clock
                         Progress.after_a_run))).
  - reflexivity.
  - discriminate.
Defined.

Lemma of_nat_nonneg (n : nat) : (0 <= Progress.of_nat n)%Q.
Proof. unfold Progress.of_nat. apply inject_Z_nonneg. lia. Qed.

Lemma of_nat_pos (n : nat) : (0 < n)%nat -> (0 < Progress.of_nat n)%Q.
Proof. intro H. unfold Progress.of_nat. apply inject_Z_pos. lia. Qed.

Lemma py_int_nonneg (q : Q) : (0 <= q)%Q -> 0 <= Progress.py_int q.
Proof.
  intro H. unfold Progress.py_int.
  apply Qle_bool_iff in H. rewrite H. apply Qle_bool_iff in H.
  change 0 with (Qfloor 0). apply Qfloor_resp_le. exact H.
Qed.

(** What a snapshot shows when [get_progress] returns one: the counters as
    they are; a percentage between 0 and 100 that is 100 once everything
    found is accounted for; at most the two hundred newest log entries;
    the status idle exactly when no run is in progress, and stopping as
    soon as a stop is requested during a run, paused or not; a remaining
    time only during a run that has done something but not everything,
    and never a negative one. *)
Theorem progress_snapshot (now : nat -> Q) (p : Progress.processor)
    (snap : Progress.snapshot) :
  Progress.get_progress now p = Some snap ->
  (Progress.total snap, Progress.processed snap, Progress.skipped snap,
   Progress.failed snap)
  = (Progress.total_images p, Progress.processed_images p,
     Progress.skipped_images p, Progress.failed_images p)
  /\ (0 <= Progress.progress snap <= 100)%Q
  /\ ((0 < Progress.total_images p <= Progress.processed_total p)%nat ->
      Progress.progress snap == 100)
  /\ (List.length (Progress.snap_logs snap) <= 200)%nat
  /\ (exists older,
        Progress.logs (Progress.log p) = older ++ Progress.snap_logs snap)
  /\ (Progress.snap_status snap = Progress.Idle
      <-> Progress.is_processing p = false)
  /\ (Progress.is_processing p = true -> Progress.should_stop p = true ->
      Progress.snap_status snap = Progress.Stopping)
  /\ (forall z, Progress.time_remaining snap = Some z ->
        0 <= z
        /\ Progress.is_processing p = true
        /\ (0 < Progress.processed_total p < Progress.total_images p)%nat).
Proof.
  intro H.
  assert (E : exists avg per_second,
    snap = Progress.mkSnapshot
      (if negb (Progress.is_processing p) then Progress.Idle
       else if Progress.should_stop p then Progress.Stopping
       else if Progress.paused p then Progress.Paused
       else Progress.Processing)
      (if (0 <? Progress.total_images p)%nat
       then Qmin 100 (Progress.of_nat (Progress.processed_total p)
                      / Progress.of_nat (Progress.total_images p) * 100)
       else 0%Q)
      (Progress.total_images p) (Progress.processed_images p)
      (Progress.skipped_images p) (Progress.failed_images p)
      (if (200 <? List.length (Progress.logs (Progress.log p)))%nat
       then Progress.last_n 200 (Progress.logs (Progress.log p))
       else Progress.logs (Progress.log p))
      (Progress.time_elapsed snap)
      (match Progress.elapsed_seconds now p with
       | Some seconds =>
         if Qgt_bool seconds 0
         then Some (Progress.py_int
                      (seconds / Progress.of_nat (Progress.processed_total p)
                       * Progress.of_nat (Progress.total_images p
                                          - Progress.processed_total p)))
         else None
       | None => None
       end)
      avg per_second).
  { unfold Progress.get_progress in H. cbv zeta in H.
    destruct (Progress.processing_times p) as [|x r].
    - injection H as <-. eexists. eexists. reflexivity.
    - destruct (Progress.elapsed_seconds now p) as [seconds|]; [|discriminate].
      destruct (Qgt_bool seconds 0); injection H as <-;
        eexists; eexists; reflexivity. }
  destruct E as (avg & per_second & ->). clear H.
  cbn [Progress.total Progress.processed Progress.skipped Progress.failed
       Progress.progress Progress.snap_logs Progress.snap_status
       Progress.time_remaining].
  split; [reflexivity|]. split; [|split; [|split; [|split; [|split; [|split]]]]].
  - destruct (Nat.ltb_spec 0 (Progress.total_images p)) as [Ht|Ht];
      [|split; discriminate].
    split; [|apply Q.le_min_l].
    apply Q.min_glb; [discriminate|].
    apply Qmult_le_0_compat; [|discriminate].
    apply Qdiv_nonneg; [apply of_nat_nonneg | apply of_nat_pos, Ht].
  - intros [Ht Hd]. apply Nat.ltb_lt in Ht. rewrite Ht. apply Nat.ltb_lt in Ht.
    apply Q.min_l.
    pose proof (of_nat_pos _ Ht) as Hpos.
    assert (Hle : (Progress.of_nat (Progress.total_images p)
                   <= Progress.of_nat (Progress.processed_total p))%Q)
      by (unfold Progress.of_nat; rewrite <- Zle_Qle; lia).
    apply (Qdiv_le_mono _ _ _ Hpos) in Hle.
    assert (E : (Progress.of_nat (Progress.total_images p)
                 / Progress.of_nat (Progress.total_images p) == 1)%Q)
      by (field; intro H0; rewrite H0 in Hpos; discriminate Hpos).
    rewrite E in Hle. lra.
  - destruct (Nat.ltb_spec 200 (List.length (Progress.logs (Progress.log p))));
      [|lia].
    destruct (last_n_split 200 (Progress.logs (Progress.log p))) as (_ & _ & Hl).
    lia.
  - destruct (200 <? List.length (Progress.logs (Progress.log p)))%nat.
    + destruct (last_n_split 200 (Progress.logs (Progress.log p)))
        as (older & Hs & _). exists older. exact Hs.
    + exists []. reflexivity.
  - destruct (Progress.is_processing p), (Progress.should_stop p),
      (Progress.paused p); cbn; split; congruence.
  - intros -> ->. reflexivity.
  - intros z Hz.
    assert (Hb : Progress.elapsed_seconds now p <> None)
      by (intro Hn; rewrite Hn in Hz; discriminate Hz).
    destruct (Progress.is_processing p) eqn:Ep.
    2:{ exfalso. apply Hb. unfold Progress.elapsed_seconds. rewrite Ep.
        reflexivity. }
    destruct (Nat.ltb_spec 0 (Progress.processed_total p)) as [Hd|Hd].
    2:{ exfalso. apply Hb. unfold Progress.elapsed_seconds. rewrite Ep.
        replace (0 <? Progress.processed_total p)%nat with false
          by (symmetry; apply Nat.ltb_ge; exact Hd). reflexivity. }
    destruct (Nat.ltb_spec (Progress.processed_total p)
                (Progress.total_images p)) as [Hr|Hr].
    2:{ exfalso. apply Hb. unfold Progress.elapsed_seconds. rewrite Ep.
        replace (Progress.processed_total p <? Progress.total_images p)%nat
          with false by (symmetry; apply Nat.ltb_ge; exact Hr).
        rewrite andb_false_r. reflexivity. }
    split; [|split; [reflexivity | lia]].
    destruct (Progress.elapsed_seconds now p) as [seconds|]; [|discriminate Hz].
    destruct (Qgt_bool seconds 0) eqn:Es; [|discriminate Hz].
    injection Hz as <-. apply Qgt_bool_iff in Es. apply py_int_nonneg.
    apply Qmult_le_0_compat; [|apply of_nat_nonneg].
    apply Qdiv_nonneg; [lra | apply of_nat_pos, Hd].
Qed.

Lemma progress_snapshot_witness :
  exists snap,
    Progress.get_progress Progress.steady_clock Progress.in_mid_run = Some snap
    /\ (0 <= Progress.progress snap <= 100)%Q.
Proof.
  destruct (Progress.get_progress Progress.steady_clock Progress.in_mid_run)
    as [snap|] eqn:E; [|vm_compute in E; discriminate E].
  exists snap. split; [reflexivity|].
  exact (proj1 (proj2 (progress_snapshot Progress.steady_clock
                         Progress.in_mid_run snap E))).
Defined.

(** * Further properties of the JSON helpers *)

Lemma string_length_append (s t : string) :
  String.length (s ++ t)%string = (String.length s + String.length t)%nat.
Proof. induction s as [|c s IH]; cbn; [reflexivity | rewrite IH; reflexivity]. Qed.

Lemma string_append_assoc (s t u : string) :
  ((s ++ t) ++ u = s ++ (t ++ u))%string.
Proof. induction s as [|c s IH]; cbn; [reflexivity | rewrite IH; reflexivity]. Qed.

Lemma find_split (ch : ascii) (s : string) (a : nat) :
  Utils.find ch s = Some a ->
  exists pre rest, s = (pre ++ String ch rest)%string
    /\ String.length pre = a /\ Utils.find ch pre = None.
Proof.
  revert a. induction s as [|c r IH]; intros a H; [discriminate H|].
  cbn [Utils.find] in H. destruct (Ascii.eqb_spec c ch) as [->|Hne].
  - injection H as <-. exists EmptyString, r. repeat split.
  - destruct (Utils.find ch r) as [k|]; [|discriminate H]. injection H as <-.
    destruct (IH k eq_refl) as (pre & rest & -> & Hlen & Hnone).
    exists (String c pre), rest. cbn [Utils.find String.length append].
    rewrite Hlen, Hnone. apply Ascii.eqb_neq in Hne. rewrite Hne.
    repeat split.
Qed.

Lemma rfind_split (ch : ascii) (s : string) (b : nat) :
  Utils.rfind ch s = Some b ->
  exists pre post, s = (pre ++ String ch post)%string
    /\ String.length pre = b /\ Utils.rfind ch post = None.
Proof.
  revert b. induction s as [|c r IH]; intros b H; [discriminate H|].
  cbn [Utils.rfind] in H. destruct (Utils.rfind ch r) as [k|] eqn:Er.
  - injection H as <-. destruct (IH k eq_refl) as (pre & post & -> & Hlen & Hn).
    exists (String c pre), post. cbn [String.length append]. rewrite Hlen.
    repeat split. exact Hn.
  - destruct (Ascii.eqb_spec c ch) as [->|Hne]; [|discriminate H].
    injection H as <-. exists EmptyString, r. repeat split. exact Er.
Qed.

Lemma string_append_overlap (p1 p2 t1 t2 : string) (c1 c2 : ascii) :
  (p1 ++ String c1 t1 = p2 ++ String c2 t2)%string ->
  (String.length p1 < String.length p2)%nat ->
  exists mid, p2 = (p1 ++ String c1 mid)%string
              /\ t1 = (mid ++ String c2 t2)%string.
Proof.
  revert p2. induction p1 as [|y p1 IH]; intros [|x p2] H Hlen;
    cbn in Hlen; try lia.
  - cbn in H. injection H as -> ->. exists p2. split; reflexivity.
  - cbn in H. injection H as -> H.
    destruct (IH p2 H ltac:(lia)) as (mid & -> & ->).
    exists mid. split; reflexivity.
Qed.

Lemma substring_middle (pre x post : string) :
  substring (String.length pre) (String.length x) (pre ++ x ++ post) = x.
Proof.
  induction pre as [|c pre IH]; [|exact IH].
  cbn [String.length append]. induction x as [|c x IHx].
  - destruct post; reflexivity.
  - cbn. rewrite IHx. reflexivity.
Qed.

(** The text handed to the parser is brace-delimited: when
    [clean_and_repair_json] finds a span, the text reads
    prefix { middle } suffix, where the prefix holds no opening brace and
    the suffix no closing brace, and the span is { middle }.  It finds
    none exactly when the text has no opening brace, or no closing brace
    after the first opening one. *)
Theorem json_span_is_brace_delimited (json_str : string) :
  (forall span, Utils.json_span json_str = Some span ->
     exists pre mid post,
       json_str = (pre ++ "{" ++ mid ++ "}" ++ post)%string
       /\ span = ("{" ++ mid ++ "}")%string
       /\ Utils.find "{" pre = None
       /\ Utils.rfind "}" post = None)
  /\ (Utils.json_span json_str = None <->
      match Utils.find "{" json_str, Utils.rfind "}" json_str with
      | Some a, Some b => (b <= a)%nat
      | _, _ => True
      end).
Proof.
  unfold Utils.json_span. split.
  - intros span H.
    destruct (Utils.find "{" json_str) as [a|] eqn:Ea; [|discriminate H].
    destruct (Utils.rfind "}" json_str) as [b|] eqn:Eb; [|discriminate H].
    destruct (Nat.ltb_spec a b) as [Hab|_]; [|discriminate H].
    injection H as <-.
    destruct (find_split _ _ _ Ea) as (pre & rest & Hs & Ha & Hpre).
    destruct (rfind_split _ _ _ Eb) as (pre2 & post & Hs2 & Hb & Hpost).
    assert (Hov : exists mid, pre2 = (pre ++ String "{" mid)%string
                              /\ rest = (mid ++ String "}" post)%string).
    { apply string_append_overlap; [congruence | lia]. }
    destruct Hov as (mid & -> & ->).
    exists pre, mid, post. split; [exact Hs|]. split; [|split; assumption].
    rewrite Hs.
    replace (b + 1 - a)%nat with (String.length ("{" ++ mid ++ "}")%string).
    + rewrite <- Ha.
      change (pre ++ String "{" (mid ++ String "}" post))%string
        with (pre ++ (String "{" (mid ++ String "}" post)))%string.
      replace (String "{" (mid ++ String "}" post))
        with (("{" ++ mid ++ "}") ++ post)%string.
      * apply substring_middle.
      * cbn. f_equal. rewrite string_append_assoc. reflexivity.
    + rewrite <- Hb, <- Ha. cbn [String.length append].
      rewrite !string_length_append. cbn [String.length]. lia.
  - destruct (Utils.find "{" json_str) as [a|]; [|tauto].
    destruct (Utils.rfind "}" json_str) as [b|]; [|tauto].
    destruct (Nat.ltb_spec a b); split; try discriminate; try tauto; lia.
Qed.

Lemma json_span_is_brace_delimited_witness :
  exists pre mid post,
    "Answer: { garbled } done"%string = (pre ++ "{" ++ mid ++ "}" ++ post)%string
    /\ "{ garbled }"%string = ("{" ++ mid ++ "}")%string
    /\ Utils.find "{" pre = None
    /\ Utils.rfind "}" post = None.
Proof.
  apply (proj1 (json_span_is_brace_delimited "Answer: { garbled } done")).
  reflexivity.
Defined.

(** A text from which nothing can be recovered yields no keyword at all
    and the placeholder as description: the fallback of
    [clean_and_repair_json] passes through [extract_keywords_from_json]
    unharmed, whatever the library underneath does. *)
Theorem unrecoverable_text_gives_placeholder (lib : Utils.PyLib)
    (raw : string) :
  Utils.recoverable raw = false ->
  Utils.extract_keywords_from_json (Utils.JString raw)
  = ([], Some (Utils.JString "Description not available")).
Proof.
  intro H.
  assert (E : Utils.clean_and_repair_json raw = inr Utils.minimal_json).
  { revert H. unfold Utils.recoverable, Utils.clean_and_repair_json,
      Utils.clean_body.
    destruct (Utils.json_span raw) as [span|]; [|reflexivity].
    destruct (Utils.re_sub Utils.CollapseWhitespace span) as [e|collapsed];
      cbn; [reflexivity|].
    destruct (Utils.json_loads collapsed) as [[|]|v]; cbn;
      [|reflexivity|discriminate].
    destruct (Utils.repair collapsed) as [e|repaired]; cbn; [reflexivity|].
    destruct (Utils.json_loads repaired) as [[|]|v]; cbn;
      [|reflexivity|discriminate].
    intro H. pose proof (manual_extraction_nothing_found lib repaired H) as Hm.
    destruct (Utils.manual_extraction repaired) as [e|result]; cbn;
      [reflexivity | rewrite Hm; reflexivity]. }
  unfold Utils.extract_keywords_from_json, Utils.extract_body.
  rewrite E. reflexivity.
Qed.

Lemma unrecoverable_text_gives_placeholder_witness :
  @Utils.extract_keywords_from_json Utils.barren_lib
    (Utils.JString "I cannot describe this image.")
  = ([], Some (Utils.JString "Description not available")).
Proof.
  apply (unrecoverable_text_gives_placeholder Utils.barren_lib
           "I cannot describe this image.").
  reflexivity.
Defined.

Lemma prefix_append (s t : string) : prefix s (s ++ t) = true.
Proof.
  induction s as [|a s IH]; [destruct t; reflexivity|].
  cbn. destruct (ascii_dec a a) as [_|Hne]; [exact IH | contradiction].
Qed.

Lemma index_at_start (a : ascii) (sub rest : string) :
  index 0 (String a sub) (String a sub ++ rest) = Some 0%nat.
Proof.
  change (String a sub ++ rest)%string with (String a (sub ++ rest)).
  cbn [index].
  change (String a (sub ++ rest)) with (String a sub ++ rest)%string.
  rewrite prefix_append. reflexivity.
Qed.

Lemma index_past_plain_text (a : ascii) (sub pre rest : string) :
  Utils.find a pre = None ->
  index 0 (String a sub) (pre ++ rest)
  = option_map (Nat.add (String.length pre)) (index 0 (String a sub) rest).
Proof.
  induction pre as [|c pre IH]; intro H.
  - cbn. destruct (index 0 (String a sub) rest); reflexivity.
  - cbn [Utils.find] in H. destruct (Ascii.eqb_spec c a) as [|Hne];
      [discriminate H|].
    destruct (Utils.find a pre) as [k|]; [discriminate H|].
    cbn [append index prefix].
    destruct (ascii_dec a c) as [E|_]; [symmetry in E; contradiction|].
    rewrite (IH eq_refl).
    destruct (index 0 (String a sub) rest); reflexivity.
Qed.

Lemma index_skip (k : nat) (sub x rest : string) :
  index (String.length x + k) sub (x ++ rest)
  = option_map (Nat.add (String.length x)) (index k sub rest).
Proof.
  induction x as [|c x IH].
  - cbn. destruct (index k sub rest); reflexivity.
  - cbn [String.length append Nat.add index]. rewrite IH.
    destruct (index k sub rest); reflexivity.
Qed.

Lemma index_none_in_plain_text (a : ascii) (sub s : string) :
  Utils.find a s = None -> index 0 (String a sub) s = None.
Proof.
  induction s as [|c s IH]; intro H; [reflexivity|].
  cbn [Utils.find] in H. destruct (Ascii.eqb_spec c a) as [|Hne];
    [discriminate H|].
  destruct (Utils.find a s) as [k|]; [discriminate H|].
  cbn [index prefix]. destruct (ascii_dec a c) as [E|_];
    [symmetry in E; contradiction|].
  rewrite (IH eq_refl). reflexivity.
Qed.

(** An answer that wraps its JSON in a json code fence: when neither the
    text before the fence nor the text inside it holds a backtick, the
    parser is given exactly the stripped inside of the fence, whatever
    follows the closing fence.  An answer without any backtick is parsed
    from its first opening to its last closing brace, or as a whole when
    it has no such span.  What the parser rejects comes back as null. *)
Theorem extract_json_from_response_spec (lib : Utils.PyLib) :
  let parse text :=
    match Utils.json_loads text with
    | inr value => value
    | inl _ => Utils.JNull
    end in
  (forall pre body post,
     Utils.find "`" pre = None -> Utils.find "`" body = None ->
     Utils.extract_json_from_response
       (pre ++ "```json" ++ body ++ "```" ++ post)
     = parse (Utils.strip body))
  /\ (forall text,
        Utils.find "`" text = None ->
        Utils.extract_json_from_response text
        = match Utils.json_span text with
          | Some span => parse span
          | None => parse text
          end).
Proof.
  cbn zeta. split.
  - intros pre body post Hpre Hbody.
    unfold Utils.extract_json_from_response, Utils.fenced.
    assert (Estart : index 0 "```json" (pre ++ "```json" ++ body ++ "```" ++ post)
                     = Some (String.length pre)).
    { rewrite (index_past_plain_text "`" "``json" pre _ Hpre).
      rewrite (index_at_start "`" "``json"). cbn. f_equal. lia. }
    rewrite Estart.
    assert (Estop : index (String.length pre + String.length "```json") "```"
                      (pre ++ "```json" ++ body ++ "```" ++ post)
                    = Some (String.length pre + 7 + String.length body)%nat).
    { replace (pre ++ "```json" ++ body ++ "```" ++ post)%string
        with ((pre ++ "```json") ++ body ++ "```" ++ post)%string
        by (rewrite string_append_assoc; reflexivity).
      replace (String.length pre + String.length "```json")%nat
        with (String.length (pre ++ "```json") + 0)%nat
        by (rewrite string_length_append; cbn; lia).
      rewrite index_skip.
      rewrite (index_past_plain_text "`" "``" body _ Hbody).
      rewrite (index_at_start "`" "``"). cbn [option_map].
      rewrite string_length_append. cbn [String.length]. f_equal. lia. }
    rewrite Estop.
    replace (String.length pre + 7 + String.length body
             - (String.length pre + String.length "```json"))%nat
      with (String.length body) by (cbn [String.length]; lia).
    replace (String.length pre + String.length "```json")%nat
      with (String.length (pre ++ "```json"))
      by (rewrite string_length_append; reflexivity).
    replace (pre ++ "```json" ++ body ++ "```" ++ post)%string
      with ((pre ++ "```json") ++ body ++ "```" ++ post)%string
      by (rewrite string_append_assoc; reflexivity).
    rewrite substring_middle. reflexivity.
  - intros text Htext. unfold Utils.extract_json_from_response.
    rewrite (index_none_in_plain_text "`" "``json" text Htext).
    rewrite (index_none_in_plain_text "`" "``" text Htext). reflexivity.
Qed.

Lemma extract_json_from_response_spec_witness :
  @Utils.extract_json_from_response Utils.braces_lib
    ("Here is the result: " ++ "```json" ++ " {} " ++ "```" ++ " Done.")%string
  = Utils.JDict [].
Proof.
  rewrite (proj1 (extract_json_from_response_spec Utils.braces_lib)
             "Here is the result: "%string " {} "%string " Done."%string
             eq_refl eq_refl).
  reflexivity.
Defined.

(** * Closed instances of the properties above *)

Lemma request_loop_balanced_witness :
  map admission (instances (final (generate always_500 "llava" 3 Scenarios.solo)))
  = map admission (instances Scenarios.solo).
Proof.
  apply (request_loop_balanced ApiGenerate always_500 "llava" 3 0 Scenarios.solo 0).
  intro n. cbn. lia.
Defined.

Lemma extract_keywords_solid_witness :
  " person"%string <> EmptyString
  /\ Utils.whitespace_only " person" = false.
Proof.
  apply (extract_keywords_solid Utils.barren_lib Utils.one_person " person").
  left. reflexivity.
Defined.

